(** * Robocot VK patch scripts: storage bridge and next-level computation

    A shallow embedding of
    - the game storage loader ([enhancedGetItem], [enhancedSetItem],
      [enhancedRemoveItem], [initialize]),
    - the VK Bridge wrapper ([init], [storageGet], [storageSet]) of
      [scripts/vk-iframe-fix.js],
    - [calculateNextLevel] of the player progress saver,
    together with the properties the specification states about them. *)

From stdpp Require Import gmap strings list.
From Stdlib Require Import ZArith Lia.

Local Open Scope string_scope.
Local Open Scope list_scope.

(** ** JavaScript values *)

Module Js.

(** Values as the scripts see them.  Numbers are the integers among
    JavaScript's numbers (no fraction, NaN or infinity); objects and
    arrays live in a heap and are compared by reference. *)
Inductive JsVal : Type :=
| VUndef
| VNull
| VBool (b : bool)
| VNum (z : Z)
| VStr (s : string)
| VRef (l : nat).

#[global] Instance JsVal_eq_dec : EqDecision JsVal.
Proof. solve_decision. Defined.

(** ToBoolean. *)
Definition truthy (v : JsVal) : bool :=
  match v with
  | VUndef | VNull => false
  | VBool b => b
  | VNum z => negb (z =? 0)%Z
  | VStr s => negb (String.eqb s "")
  | VRef _ => true
  end.

(** [typeof v === 'boolean'] *)
Definition is_boolean (v : JsVal) : bool :=
  match v with VBool _ => true | _ => false end.

(** [a === b] *)
Definition strict_eq (a b : JsVal) : bool := bool_decide (a = b).

(** The result of evaluating something that may throw. *)
Inductive outcome (A : Type) : Type :=
| Normal (a : A)
| Throw (message : string).
Arguments Normal {A} a.
Arguments Throw {A} message.

End Js.

Export Js.

(** ** The world the scripts run in *)

Module Bridge.

(** Messages handed to [vkBridge.send]. *)
Inductive Request : Type :=
| VKWebAppInit
| VKWebAppStorageGet (key : string)
| VKWebAppStorageSet (key value : string).

#[global] Instance Request_eq_dec : EqDecision Request.
Proof. solve_decision. Defined.

(** What the platform resolves a request with: [{result: true}] or
    [{keys: [{key, value}, ...]}]. *)
Inductive Reply : Type :=
| ReplyResult (result : bool)
| ReplyKeys (keys : list (string * string)).

(** Backend operations in the order they are issued. *)
Inductive Event : Type :=
| LocalGet (key : string)
| LocalSet (key value : string)
| LocalRemove (key : string)
| Send (r : Request)
| Sleep (ms : nat).

#[global] Instance Event_eq_dec : EqDecision Event.
Proof. solve_decision. Defined.

(** The parts of the environment the scripts cannot change: when the
    browser's storage throws, whether the [vkBridge] global exists and
    which of its calls (numbered from 0) the platform rejects. *)
Record Env : Type := {
  getItem_throws : string -> bool;
  setItem_throws : string -> string -> bool;
  vkBridge_defined : bool;
  vk_rejects : nat -> bool
}.

Record World : Type := {
  env : Env;
  (** [window.localStorage] *)
  localStorage : gmap string string;
  (** [vkStorageCache] *)
  vkStorageCache : gmap string string;
  (** [window.VKBridgeWrapper]: [None] when the wrapper script is not
      loaded, otherwise its [initialized] field *)
  wrapper : option bool;
  (** the platform's key/value storage *)
  vk_storage : gmap string string;
  (** number of [vkBridge.send] calls made so far *)
  vk_sent : nat;
  (** [isInitialized] of the storage loader *)
  isInitialized : bool;
  trace : list Event
}.

Definition with_localStorage (m : gmap string string) (w : World) : World :=
  {| env := env w; localStorage := m; vkStorageCache := vkStorageCache w;
     wrapper := wrapper w; vk_storage := vk_storage w; vk_sent := vk_sent w;
     isInitialized := isInitialized w; trace := trace w |}.

Definition with_cache (m : gmap string string) (w : World) : World :=
  {| env := env w; localStorage := localStorage w; vkStorageCache := m;
     wrapper := wrapper w; vk_storage := vk_storage w; vk_sent := vk_sent w;
     isInitialized := isInitialized w; trace := trace w |}.

Definition with_wrapper (o : option bool) (w : World) : World :=
  {| env := env w; localStorage := localStorage w;
     vkStorageCache := vkStorageCache w;
     wrapper := o; vk_storage := vk_storage w; vk_sent := vk_sent w;
     isInitialized := isInitialized w; trace := trace w |}.

Definition with_vk_storage (m : gmap string string) (w : World) : World :=
  {| env := env w; localStorage := localStorage w;
     vkStorageCache := vkStorageCache w;
     wrapper := wrapper w; vk_storage := m; vk_sent := vk_sent w;
     isInitialized := isInitialized w; trace := trace w |}.

Definition with_vk_sent (n : nat) (w : World) : World :=
  {| env := env w; localStorage := localStorage w;
     vkStorageCache := vkStorageCache w;
     wrapper := wrapper w; vk_storage := vk_storage w; vk_sent := n;
     isInitialized := isInitialized w; trace := trace w |}.

Definition with_isInitialized (b : bool) (w : World) : World :=
  {| env := env w; localStorage := localStorage w;
     vkStorageCache := vkStorageCache w;
     wrapper := wrapper w; vk_storage := vk_storage w; vk_sent := vk_sent w;
     isInitialized := b; trace := trace w |}.

Definition record (e : Event) (w : World) : World :=
  {| env := env w; localStorage := localStorage w;
     vkStorageCache := vkStorageCache w;
     wrapper := wrapper w; vk_storage := vk_storage w; vk_sent := vk_sent w;
     isInitialized := isInitialized w; trace := trace w ++ [e] |}.

(** ** Computations on the world that may throw

    State survives a throw: what was written before the exception
    stays written. *)

Definition M (A : Type) : Type := World -> outcome A * World.

Definition ret {A} (a : A) : M A := fun w => (Normal a, w).

Definition bind {A B} (m : M A) (k : A -> M B) : M B :=
  fun w =>
    match m w with
    | (Normal a, w') => k a w'
    | (Throw e, w') => (Throw e, w')
    end.

(** [try { m } catch (error) { handler(error) }] *)
Definition try_catch {A} (m : M A) (handler : string -> M A) : M A :=
  fun w =>
    match m w with
    | (Normal a, w') => (Normal a, w')
    | (Throw e, w') => handler e w'
    end.

Declare Scope bridge_scope.
Delimit Scope bridge_scope with bridge.
Bind Scope bridge_scope with M.
Notation "x ← y ; z" := (bind y (fun x => z))
  (at level 20, y at level 100, z at level 200, only parsing) : bridge_scope.
Notation "x ;; z" := (bind x (fun _ => z))
  (at level 100, z at level 200, only parsing, right associativity)
  : bridge_scope.
Local Open Scope bridge_scope.

(** [if (c) { m }] *)
Definition when (c : bool) (m : M unit) : M unit :=
  if c then m else ret tt.

(** ** The local backend: [originalLocalStorage] *)

Definition getItem (key : string) : M (option string) :=
  fun w =>
    let w1 := record (LocalGet key) w in
    if getItem_throws (env w) key then (Throw "SecurityError", w1)
    else (Normal (localStorage w !! key), w1).

Definition setItem (key value : string) : M unit :=
  fun w =>
    let w1 := record (LocalSet key value) w in
    if setItem_throws (env w) key value then (Throw "QuotaExceededError", w1)
    else (Normal tt, with_localStorage (<[key := value]> (localStorage w)) w1).

Definition removeItem (key : string) : M unit :=
  fun w =>
    (Normal tt,
     with_localStorage (delete key (localStorage w)) (record (LocalRemove key) w)).

(** [vkStorageCache.set] and [vkStorageCache.delete] *)
Definition cache_set (key value : string) : M unit :=
  fun w => (Normal tt, with_cache (<[key := value]> (vkStorageCache w)) w).

Definition cache_delete (key : string) : M unit :=
  fun w => (Normal tt, with_cache (delete key (vkStorageCache w)) w).

(** ** The platform: [vkBridge.send]

    Modelled from the spec: the platform behind the [vkBridge] global,
    which the repository calls but does not contain.  It keeps one
    string per key, has no delete, and answers a read of a key it has
    no value for with the empty string.  Any call may be rejected; a
    rejected call has no effect on the platform's storage. *)
Definition vkBridge_send (r : Request) : M Reply :=
  fun w =>
    if negb (vkBridge_defined (env w)) then (Throw "ReferenceError", w)
    else
      let w1 := with_vk_sent (S (vk_sent w)) (record (Send r) w) in
      if vk_rejects (env w) (vk_sent w) then (Throw "VKBridgeError", w1)
      else
        match r with
        | VKWebAppInit => (Normal (ReplyResult true), w1)
        | VKWebAppStorageGet key =>
            (Normal (ReplyKeys [(key, default "" (vk_storage w !! key))]), w1)
        | VKWebAppStorageSet key value =>
            (Normal (ReplyResult true),
             with_vk_storage (<[key := value]> (vk_storage w)) w1)
        end.

(** ** [window.VKBridgeWrapper] *)

(** [this.initialized]; calling a method of a wrapper that does not
    exist is a TypeError. *)
Definition this_initialized : M bool :=
  fun w =>
    match wrapper w with
    | Some b => (Normal b, w)
    | None => (Throw "TypeError", w)
    end.

Definition set_this_initialized (b : bool) : M unit :=
  fun w => (Normal tt, with_wrapper (Some b) w).

(** [typeof vkBridge === 'undefined'] *)
Definition vkBridge_undefined : M bool :=
  fun w => (Normal (negb (vkBridge_defined (env w))), w).

(** A method call [window.VKBridgeWrapper.m(...)]: a TypeError at the
    call site when the wrapper does not exist. *)
Definition on_wrapper {A} (method : M A) : M A :=
  fun w =>
    match wrapper w with
    | Some _ => method w
    | None => (Throw "TypeError", w)
    end.

Definition init : M bool :=
  on_wrapper
    (try_catch
       (initialized ← this_initialized ;
        if initialized then ret true
        else
          undefined ← vkBridge_undefined ;
          if undefined then ret false
          else
            vkBridge_send VKWebAppInit ;;
            set_this_initialized true ;;
            ret true)
       (fun _ => ret false)).

(** [init] has one [await].  Two calls overlap when the second starts
    before the first is resumed, so the function is also given in two
    halves: up to the [await], and from the platform's answer on. *)
Inductive Suspended : Type :=
| Returned (b : bool)
| Awaiting (answer : outcome Reply).

(** Whether the platform answered a call, rather than rejecting it. *)
Definition accepted (answer : outcome Reply) : bool :=
  match answer with
  | Normal _ => true
  | Throw _ => false
  end.

Definition init_begin : M Suspended :=
  on_wrapper
    (try_catch
       (initialized ← this_initialized ;
        if initialized then ret (Returned true)
        else
          undefined ← vkBridge_undefined ;
          if undefined then ret (Returned false)
          else
            fun w =>
              let (answer, w') := vkBridge_send VKWebAppInit w in
              (Normal (Awaiting answer), w'))
       (fun _ => ret (Returned false))).

Definition init_resume (answer : outcome Reply) : M bool :=
  try_catch
    ((fun w => (answer, w)) ;;
     set_this_initialized true ;;
     ret true)
    (fun _ => ret false).

Definition init_stepwise : M bool :=
  s ← init_begin ;
  match s with
  | Returned b => ret b
  | Awaiting answer => init_resume answer
  end.

(** [result.keys], undefined on a reply that has none. *)
Definition reply_keys (r : Reply) : option (list (string * string)) :=
  match r with
  | ReplyKeys keys => Some keys
  | ReplyResult _ => None
  end.

Definition storageGet (key : string) : M (option string) :=
  on_wrapper
    (try_catch
       (initialized ← this_initialized ;
        when (negb initialized) (init ;; ret tt) ;;
        initialized ← this_initialized ;
        if negb initialized then ret None
        else
          result ← vkBridge_send (VKWebAppStorageGet key) ;
          match reply_keys result with
          | Some ((_, value) :: _) => ret (Some value)
          | _ => ret None
          end)
       (fun _ => ret None)).

Definition storageSet (key value : string) : M bool :=
  on_wrapper
    (try_catch
       (initialized ← this_initialized ;
        when (negb initialized) (init ;; ret tt) ;;
        initialized ← this_initialized ;
        if negb initialized then ret false
        else
          vkBridge_send (VKWebAppStorageSet key value) ;;
          ret true)
       (fun _ => ret false)).

(** ** The storage bridge *)

(** [window.VKBridgeWrapper && window.VKBridgeWrapper.initialized] *)
Definition wrapper_ready : M bool :=
  fun w => (Normal (match wrapper w with Some b => b | None => false end), w).

(** The local part of [enhancedGetItem]: read [localStorage] and, when
    it has the key and the wrapper is ready, copy the value to the
    platform. *)
Definition local_fallback (key : string) : M (option string) :=
  localValue ← getItem key ;
  match localValue with
  | Some v =>
      ready ← wrapper_ready ;
      when ready (storageSet key v ;; ret tt) ;;
      ret (Some v)
  | None => ret None
  end.

Definition enhancedGetItem (key : string) : M (option string) :=
  try_catch
    (ready ← wrapper_ready ;
     if ready then
       vkValue ← storageGet key ;
       match vkValue with
       | Some v =>
           if negb (String.eqb v "") then
             cache_set key v ;;
             setItem key v ;;
             ret (Some v)
           else local_fallback key
       | None => local_fallback key
       end
     else local_fallback key)
    (fun _ => getItem key).

(** The function has no [return]: its promise resolves to [undefined]. *)
Definition enhancedSetItem (key value : string) : M JsVal :=
  try_catch
    (setItem key value ;;
     ready ← wrapper_ready ;
     when ready
       (success ← storageSet key value ;
        when success (cache_set key value)))
    (fun _ => ret tt) ;;
  ret VUndef.

Definition enhancedRemoveItem (key : string) : M JsVal :=
  try_catch
    (removeItem key ;;
     cache_delete key ;;
     ready ← wrapper_ready ;
     when ready (storageSet key "" ;; ret tt))
    (fun _ => ret tt) ;;
  ret VUndef.

(** ** Start-up of the storage loader *)

Definition maxAttempts : nat := 50.

Section Initialize.

(** While [initialize] sleeps, the handshake that the wrapper script
    started on its own may complete: [handshake_completes n] tells
    whether it does so during the sleep that follows [n] attempts. *)
Variable handshake_completes : nat -> bool.

(** [await new Promise(resolve => setTimeout(resolve, ms))] *)
Definition sleep (attempts ms : nat) : M unit :=
  fun w =>
    let w1 := record (Sleep ms) w in
    (Normal tt,
     if handshake_completes attempts then with_wrapper (Some true) w1 else w1).

(** [while (!window.VKBridgeWrapper.initialized && attempts < maxAttempts)];
    [remaining] is [maxAttempts - attempts]. *)
Fixpoint wait_for_bridge (remaining attempts : nat) : M unit :=
  match remaining with
  | 0 => ret tt
  | S remaining' =>
      initialized ← this_initialized ;
      if negb initialized then
        sleep attempts 100 ;;
        wait_for_bridge remaining' (S attempts)
      else ret tt
  end.

(** The poll of [initialize]: [if (window.VKBridgeWrapper) { ... }].
    The rest of [initialize] starts the loading of the player's
    progress and is given with it, in [Loader]. *)
Definition startup_poll : M unit :=
  fun w =>
    match wrapper w with
    | Some _ => wait_for_bridge maxAttempts 0 w
    | None => (Normal tt, w)
    end.

End Initialize.

(** ** Observations on worlds *)

Definition is_send (e : Event) : bool :=
  match e with Send _ => true | _ => false end.

Definition is_handshake (e : Event) : bool :=
  match e with Send VKWebAppInit => true | _ => false end.

Definition is_sleep (e : Event) : bool :=
  match e with Sleep _ => true | _ => false end.

(** Number of [VKWebAppInit] calls made so far. *)
Definition handshakes (w : World) : nat :=
  length (List.filter is_handshake (trace w)).

(** [window.VKBridgeWrapper && window.VKBridgeWrapper.initialized] as
    a property of the world. *)
Definition ready (w : World) : bool :=
  match wrapper w with Some b => b | None => false end.

(** ** Worlds of the specification's scenarios *)

(** Nothing throws, [vkBridge] exists, the platform accepts every call. *)
Definition quiet : Env :=
  {| getItem_throws := fun _ => false;
     setItem_throws := fun _ _ => false;
     vkBridge_defined := true;
     vk_rejects := fun _ => false |}.

(** The platform rejects every call. *)
Definition rejecting : Env :=
  {| getItem_throws := fun _ => false;
     setItem_throws := fun _ _ => false;
     vkBridge_defined := true;
     vk_rejects := fun _ => true |}.

(** The platform rejects the first call only. *)
Definition flaky : Env :=
  {| getItem_throws := fun _ => false;
     setItem_throws := fun _ _ => false;
     vkBridge_defined := true;
     vk_rejects := fun n => Nat.eqb n 0 |}.

(** Reading the browser's storage throws. *)
Definition locked : Env :=
  {| getItem_throws := fun _ => true;
     setItem_throws := fun _ _ => false;
     vkBridge_defined := true;
     vk_rejects := fun _ => false |}.

(** The browser's storage is full: every write throws. *)
Definition full : Env :=
  {| getItem_throws := fun _ => false;
     setItem_throws := fun _ _ => true;
     vkBridge_defined := true;
     vk_rejects := fun _ => false |}.

Definition world (e : Env) (wr : option bool)
    (local remote : gmap string string) : World :=
  {| env := e; localStorage := local; vkStorageCache := ∅; wrapper := wr;
     vk_storage := remote; vk_sent := 0; isInitialized := false;
     trace := [] |}.

(** Scenario A: remote ready with a newer value than the local one. *)
Definition scenario_A : World :=
  world quiet (Some true)
    {["progress" := "{level:1}"]} {["progress" := "{level:3}"]}.

(** Scenario B: the remote backend is not ready. *)
Definition scenario_B : World :=
  world quiet (Some false) {["progress" := "{level:1}"]} ∅.

(** Scenario C: remote ready, every platform call throws. *)
Definition scenario_C : World :=
  world rejecting (Some true) ∅ ∅.

End Bridge.

(** ** The next level: [calculateNextLevel] *)

Module NextLevel.

(** Objects of the heap: arrays and plain objects, as [JSON.parse]
    builds them. *)
Inductive Obj : Type :=
| OArr (elems : list JsVal)
| ORec (fields : gmap string JsVal).

Definition Heap : Type := nat -> Obj.

(** Numbers are the integers among JavaScript's numbers, which are
    doubles: 53 significant bits.  [to_double z] is the double nearest
    to the integer [z], ties going to the even significand; it is [z]
    itself below 2^53 in magnitude, and in general exactly when [z]
    is a double.  (Magnitudes from 2^1024 on, which no double holds,
    are out of its range.) *)
Definition to_double (z : Z) : Z :=
  let a := Z.abs z in
  if (a <? 2 ^ 53)%Z then z
  else
    let e := (Z.log2 a - 52)%Z in
    let q := (a / 2 ^ e)%Z in
    let r := (a mod 2 ^ e)%Z in
    let half := (2 ^ (e - 1))%Z in
    let q' :=
      if (r <? half)%Z then q
      else if (half <? r)%Z then (q + 1)%Z
      else if Z.even q then q else (q + 1)%Z in
    (Z.sgn z * (q' * 2 ^ e))%Z.

(** UTF-16 code units of the character a byte of UTF-8 text starts:
    none for a byte that continues a character, two for the first byte
    of a character of four bytes, one otherwise. *)
Definition utf16_units (b : nat) : nat :=
  if (b <? 128)%nat then 1
  else if (b <? 192)%nat then 0
  else if (b <? 240)%nat then 1
  else if (b <? 248)%nat then 2
  else 1.

(** [s.length] of a string: its number of UTF-16 code units.  A string
    of the model holds its text in UTF-8. *)
Fixpoint utf16_length (s : string) : nat :=
  match s with
  | EmptyString => 0
  | String a s' => utf16_units (Ascii.nat_of_ascii a) + utf16_length s'
  end.

(** What JavaScript computes where an operand is not a number:
    [array[key]] for such a key, [v + 1] and [a < b]. *)
Record Coercions : Type := {
  member : list JsVal -> JsVal -> JsVal;
  plus_one : JsVal -> JsVal;
  less : JsVal -> JsVal -> bool
}.

Definition and_then {A B} (m : outcome A) (k : A -> outcome B) : outcome B :=
  match m with
  | Normal a => k a
  | Throw e => Throw e
  end.

Declare Scope outcome_scope.
Delimit Scope outcome_scope with outcome.
Notation "x ← y ; z" := (and_then y (fun x => z))
  (at level 20, y at level 100, z at level 200, only parsing) : outcome_scope.
Local Open Scope outcome_scope.

Section Semantics.

Variable co : Coercions.
Variable h : Heap.

(** [v.name] for the names the function reads: [isCustom], [levels]
    and [length]. *)
Definition get_prop (v : JsVal) (name : string) : outcome JsVal :=
  match v with
  | VUndef | VNull => Throw "TypeError"
  | VBool _ | VNum _ => Normal VUndef
  | VStr s =>
      Normal (if String.eqb name "length"
              then VNum (Z.of_nat (utf16_length s)) else VUndef)
  | VRef l =>
      match h l with
      | OArr elems =>
          Normal (if String.eqb name "length"
                  then VNum (Z.of_nat (length elems)) else VUndef)
      | ORec fields => Normal (default VUndef (fields !! name))
      end
  end.

(** [Array.isArray(v)] *)
Definition isArray (v : JsVal) : bool :=
  match v with
  | VRef l => match h l with OArr _ => true | ORec _ => false end
  | _ => false
  end.

(** The elements of an array value. *)
Definition elements (v : JsVal) : list JsVal :=
  match v with
  | VRef l => match h l with OArr elems => elems | ORec _ => [] end
  | _ => []
  end.

(** [array[key]] *)
Definition get_index (elems : list JsVal) (key : JsVal) : JsVal :=
  match key with
  | VNum z =>
      if (0 <=? z)%Z then default VUndef (elems !! Z.to_nat z) else VUndef
  | _ => member co elems key
  end.

(** [v + 1], rounded as the addition of doubles is. *)
Definition add_one (v : JsVal) : JsVal :=
  match v with
  | VNum z => VNum (to_double (z + 1))
  | _ => plus_one co v
  end.

(** [a < b] *)
Definition less_than (a b : JsVal) : bool :=
  match a, b with
  | VNum x, VNum y => (x <? y)%Z
  | _, _ => less co a b
  end.

(** [array.indexOf(x)]: the first position holding a value [=== x],
    or -1. *)
Fixpoint find_index (l : list JsVal) (x : JsVal) : option nat :=
  match l with
  | [] => None
  | y :: l' =>
      if strict_eq y x then Some 0
      else match find_index l' x with
           | Some i => Some (S i)
           | None => None
           end
  end.

Definition indexOf (l : list JsVal) (x : JsVal) : Z :=
  match find_index l x with
  | Some i => Z.of_nat i
  | None => -1
  end.

(** [levelGroups.filter(group => !group.isCustom)] *)
Fixpoint filter_not_custom (groups : list JsVal) : outcome (list JsVal) :=
  match groups with
  | [] => Normal []
  | group :: groups' =>
      isCustom ← get_prop group "isCustom" ;
      rest ← filter_not_custom groups' ;
      Normal (if negb (truthy isCustom) then group :: rest else rest)
  end.

(** The [try] block.  The result is [null] or the pair
    [{nextLevel, nextLevelGroup}]. *)
Definition calculateNextLevel_try
    (currentLevel currentLevelGroup levelGroups : JsVal)
  : outcome (option (JsVal * Z)) :=
  if negb (truthy levelGroups) || negb (isArray levelGroups) then Normal None
  else
    let groups := elements levelGroups in
    nonCustomGroups ← filter_not_custom groups ;
    if (length nonCustomGroups =? 0)%nat then Normal None
    else
      let currentGroupInFiltered :=
        indexOf nonCustomGroups (get_index groups currentLevelGroup) in
      if (currentGroupInFiltered =? -1)%Z then Normal None
      else
        let currentGroup :=
          get_index nonCustomGroups (VNum currentGroupInFiltered) in
        currentGroupLevels ← get_prop currentGroup "levels" ;
        let currentGroupIndexInAll := indexOf groups currentGroup in
        levelCount ← get_prop currentGroupLevels "length" ;
        if less_than (add_one currentLevel) levelCount then
          Normal (Some (add_one currentLevel, currentGroupIndexInAll))
        else if (currentGroupInFiltered + 1
                 <? Z.of_nat (length nonCustomGroups))%Z then
          let nextGroupIndexInAll :=
            indexOf groups
              (get_index nonCustomGroups (VNum (currentGroupInFiltered + 1)))
          in
          Normal (Some (VNum 0, nextGroupIndexInAll))
        else Normal None.

(** [calculateNextLevel]: whatever the [try] block throws ends in the
    [catch] handler, which logs and returns [null]. *)
Definition calculateNextLevel
    (currentLevel currentLevelGroup levelGroups : JsVal)
  : outcome (option (JsVal * Z)) :=
  match calculateNextLevel_try currentLevel currentLevelGroup levelGroups with
  | Normal r => Normal r
  | Throw _ => Normal None
  end.

End Semantics.

(** A game with two level groups, the second of which has no level:
    [[{levels: [7]}, {levels: []}]] at address 0. *)
Definition two_groups : Heap :=
  fun l =>
    match l with
    | 0 => OArr [VRef 1; VRef 2]
    | 1 => ORec {["levels" := VRef 3]}
    | 2 => ORec {["levels" := VRef 4]}
    | 3 => OArr [VNum 7]
    | _ => OArr []
    end.

(** Three groups, the middle one custom, two levels in the first:
    [[{levels: [7, 8]}, {isCustom: true, levels: [1]}, {levels: [9]}]]. *)
Definition three_groups : Heap :=
  fun l =>
    match l with
    | 0 => OArr [VRef 1; VRef 2; VRef 3]
    | 1 => ORec {["levels" := VRef 4]}
    | 2 => ORec {["isCustom" := VBool true; "levels" := VRef 5]}
    | 3 => ORec {["levels" := VRef 6]}
    | 4 => OArr [VNum 7; VNum 8]
    | 5 => OArr [VNum 1]
    | 6 => OArr [VNum 9]
    | _ => OArr []
    end.

(** Coercions that answer [undefined] and [false]; the scenarios above
    never reach them. *)
Definition no_coercion : Coercions :=
  {| member := fun _ _ => VUndef;
     plus_one := fun _ => VUndef;
     less := fun _ _ => false |}.

End NextLevel.

(** ** Loading the player's progress: [loadPlayerProgress] *)

Module Loader.
Import Bridge.
Local Open Scope bridge_scope.

(** [gameKeys] *)
Definition gameKeys : list string :=
  ["gameState"; "playerProgress"; "currentLevel"; "completedLevels";
   "userBoards"; "progress"].

(** [for (const key of keys) { await enhancedGetItem(key); }] *)
Fixpoint load_keys (keys : list string) : M unit :=
  match keys with
  | [] => ret tt
  | key :: keys' => enhancedGetItem key ;; load_keys keys'
  end.

(** The loader's own flags next to the world of the two backends. *)
Record State : Type := {
  backends : World;
  progressLoadAttempted : bool;
  isStartScreenLoaded : bool
}.

Definition loadPlayerProgress (s : State) : outcome unit * State :=
  if progressLoadAttempted s then (Normal tt, s)
  else
    let (r, w') :=
      try_catch (load_keys gameKeys) (fun _ => ret tt) (backends s) in
    (r, {| backends := w'; progressLoadAttempted := true;
           isStartScreenLoaded := isStartScreenLoaded s |}).

(** [checkStartScreen], run by the mutation observer; [startScreen]
    tells whether [document.querySelector('div._541cc')] finds the
    start screen. *)
Definition checkStartScreen (startScreen : bool) (s : State) : State :=
  if startScreen && negb (isStartScreenLoaded s) then
    snd (loadPlayerProgress
           {| backends := backends s;
              progressLoadAttempted := progressLoadAttempted s;
              isStartScreenLoaded := true |})
  else s.

(** [initialize].  After the poll it builds a proxy that is never
    installed ([setupLocalStorageProxy]), then [watchForStartScreen]
    registers the observer and calls [checkStartScreen] at once:
    [startScreen] tells whether the start screen is in the document at
    that moment.  The loading this starts is run to its end, like every
    asynchronous call of this model. *)
Definition initialize (handshake_completes : nat -> bool) (startScreen : bool)
    (s : State) : outcome unit * State :=
  if isInitialized (backends s) then (Normal tt, s)
  else
    let (r, w1) :=
      startup_poll handshake_completes
        (with_isInitialized true (backends s)) in
    let s1 := {| backends := w1;
                 progressLoadAttempted := progressLoadAttempted s;
                 isStartScreenLoaded := isStartScreenLoaded s |} in
    match r with
    | Normal _ => (Normal tt, checkStartScreen startScreen s1)
    | Throw e => (Throw e, s1)
    end.

(** The observer firing any number of times. *)
Definition observe (sightings : list bool) (s : State) : State :=
  foldl (fun s startScreen => checkStartScreen startScreen s) s sightings.

(** A world without failures: the browser's storage never throws,
    [vkBridge] exists and the platform accepts every call. *)
Definition fault_free (w : World) : Prop :=
  (forall k, getItem_throws (env w) k = false) /\
  (forall k v, setItem_throws (env w) k v = false) /\
  vkBridge_defined (env w) = true /\
  (forall n, vk_rejects (env w) n = false).

(** The two backends agree on a key; a key without a value counts as
    the empty string, as the platform reports it. *)
Definition agree (w : World) (k : string) : Prop :=
  default "" (localStorage w !! k) = default "" (vk_storage w !! k).

(** Two worlds hold the same for a key, in the local backend, in the
    cache and on the platform. *)
Definition same_at (k : string) (w w' : World) : Prop :=
  localStorage w' !! k = localStorage w !! k /\
  vkStorageCache w' !! k = vkStorageCache w !! k /\
  vk_storage w' !! k = vk_storage w !! k.

End Loader.

(** ** The unload interceptor of [vk-iframe-fix.js] *)

Module Events.

(** Event targets and listener functions are objects, told apart by
    their addresses.  The receiver of a call is [None] where [this] is
    no object: the script runs in strict mode, so a function called
    without a receiver has [this] undefined. *)
Inductive Call : Type :=
| OriginalAdd (receiver : option nat) (type : string) (listener : nat)
    (options : JsVal)
| OriginalRemove (receiver : option nat) (type : string) (listener : nat)
    (options : JsVal).

(** What [listenerMap] keeps per listener: [{originalType, options}]. *)
Record Replaced : Type := {
  originalType : string;
  options : JsVal
}.

Record State : Type := {
  (** [listenerMap]: target to (listener to entry) *)
  listenerMap : gmap nat (gmap nat Replaced);
  (** [if (originalUnloadDescriptor)]: whether the script found an
      [onunload] accessor on the prototype of the window when it was
      loaded, and so installed its own on the window *)
  accessorInstalled : bool;
  (** [window._pagehideHandler], [None] while unset or null *)
  pagehideHandler : option nat;
  (** the browser's own [onunload] of the window, which assignments
      reach where the script installed no accessor *)
  nativeOnunload : option nat;
  (** calls of the browser's own [addEventListener] and
      [removeEventListener], in order *)
  calls : list Call
}.

(** [type === 'unload' || type === 'beforeunload'] *)
Definition is_unload (type : string) : bool :=
  String.eqb type "unload" || String.eqb type "beforeunload".

Definition with_listenerMap (m : gmap nat (gmap nat Replaced)) (s : State)
  : State :=
  {| listenerMap := m; accessorInstalled := accessorInstalled s;
     pagehideHandler := pagehideHandler s;
     nativeOnunload := nativeOnunload s; calls := calls s |}.

Definition with_pagehideHandler (handler : option nat) (s : State) : State :=
  {| listenerMap := listenerMap s; accessorInstalled := accessorInstalled s;
     pagehideHandler := handler;
     nativeOnunload := nativeOnunload s; calls := calls s |}.

Definition with_nativeOnunload (handler : option nat) (s : State) : State :=
  {| listenerMap := listenerMap s; accessorInstalled := accessorInstalled s;
     pagehideHandler := pagehideHandler s;
     nativeOnunload := handler; calls := calls s |}.

Definition call (c : Call) (s : State) : State :=
  {| listenerMap := listenerMap s; accessorInstalled := accessorInstalled s;
     pagehideHandler := pagehideHandler s;
     nativeOnunload := nativeOnunload s; calls := calls s ++ [c] |}.

(** [EventTarget.prototype.addEventListener], as replaced.  Without a
    receiver, [listenerMap.set(this, new Map())] throws a TypeError:
    [undefined] is no key of a WeakMap. *)
Definition addEventListener (this : option nat) (type : string)
    (listener : nat) (opts : JsVal) (s : State) : outcome unit * State :=
  if is_unload type then
    match this with
    | Some target =>
        let targetMap := default ∅ (listenerMap s !! target) in
        let entry := {| originalType := type; options := opts |} in
        (Normal tt,
         call (OriginalAdd this "pagehide" listener opts)
           (with_listenerMap
              (<[target := <[listener := entry]> targetMap]> (listenerMap s))
              s))
    | None => (Throw "TypeError", s)
    end
  else (Normal tt, call (OriginalAdd this type listener opts) s).

(** [EventTarget.prototype.removeEventListener], as replaced;
    [listenerMap.has(this)] is false without a receiver. *)
Definition removeEventListener (this : option nat) (type : string)
    (listener : nat) (opts : JsVal) (s : State) : State :=
  let pass := call (OriginalRemove this type listener opts) s in
  if is_unload type then
    match this with
    | Some target =>
        match listenerMap s !! target with
        | Some targetMap =>
            match targetMap !! listener with
            | Some _ =>
                call (OriginalRemove this "pagehide" listener opts)
                  (with_listenerMap
                     (<[target := delete listener targetMap]> (listenerMap s))
                     s)
            | None => pass
            end
        | None => pass
        end
    | None => pass
    end
  else pass.

(** An assignment [window.onunload = handler]; [window] is the address
    of the window object.  It runs the script's setter where the script
    installed its accessor, and is the browser's business otherwise. *)
Definition set_onunload (window : nat) (handler : option nat) (s : State)
  : State :=
  if accessorInstalled s then
    let s1 := with_pagehideHandler handler s in
    match handler with
    | Some h => snd (addEventListener (Some window) "pagehide" h VUndef s1)
    | None => s1
    end
  else with_nativeOnunload handler s.

(** Reading [window.onunload]. *)
Definition get_onunload (s : State) : option nat :=
  if accessorInstalled s then pagehideHandler s else nativeOnunload s.

(** What page code can do with the interceptor installed. *)
Inductive Op : Type :=
| Add (this : option nat) (type : string) (listener : nat) (opts : JsVal)
| Remove (this : option nat) (type : string) (listener : nat) (opts : JsVal)
| SetOnunload (window : nat) (handler : option nat).

(** An operation that throws leaves the state as it was, and page code
    goes on from there. *)
Definition step (s : State) (op : Op) : State :=
  match op with
  | Add t ty l o => snd (addEventListener t ty l o s)
  | Remove t ty l o => removeEventListener t ty l o s
  | SetOnunload w h => set_onunload w h s
  end.

Definition run (ops : list Op) (s : State) : State := foldl step s ops.

(** A call that hands the browser an [unload] or [beforeunload]
    registration. *)
Definition registers_unload (c : Call) : bool :=
  match c with
  | OriginalAdd _ type _ _ => is_unload type
  | OriginalRemove _ _ _ _ => false
  end.

(** The browser call an operation amounts to where the interceptor
    replaces nothing. *)
Definition passed_on (op : Op) : list Call :=
  match op with
  | Add t ty l o => [OriginalAdd t ty l o]
  | Remove t ty l o => [OriginalRemove t ty l o]
  | SetOnunload _ _ => []
  end.

(** An operation on an event type other than [unload] and
    [beforeunload]. *)
Definition is_plain (op : Op) : bool :=
  match op with
  | Add _ ty _ _ | Remove _ ty _ _ => negb (is_unload ty)
  | SetOnunload _ _ => false
  end.

(** Assigning [window.onunload] several times in a row. *)
Definition assign_onunload (window : nat) (handlers : list (option nat))
    (s : State) : State :=
  foldl (fun s h => set_onunload window h s) s handlers.

(** The state the script starts from when it is loaded; [installed]
    tells whether it found an accessor to replace. *)
Definition loaded (installed : bool) : State :=
  {| listenerMap := ∅; accessorInstalled := installed;
     pagehideHandler := None; nativeOnunload := None; calls := [] |}.

(** The entry [listenerMap] holds for a listener of a target. *)
Definition entry (s : State) (target listener : nat) : option Replaced :=
  targetMap ← listenerMap s !! target ; targetMap !! listener.

End Events.

(** ** Notions to speak about level groups *)

Module Groups.
Import NextLevel.

(** [group.isCustom] is truthy. *)
Definition is_custom (h : Heap) (group : JsVal) : bool :=
  match get_prop h group "isCustom" with
  | Normal c => truthy c
  | Throw _ => false
  end.

(** [group => !group.isCustom] where reading the field does not
    throw. *)
Definition keep (h : Heap) (group : JsVal) : bool :=
  negb (is_custom h group).

(** Neither [undefined] nor [null]. *)
Definition is_value (v : JsVal) : bool :=
  match v with
  | VUndef | VNull => false
  | _ => true
  end.

End Groups.

(** * Properties of the storage bridge *)

Module BridgeSpec.
Import Bridge.

Ltac unfold_bridge :=
  unfold enhancedGetItem, enhancedSetItem, enhancedRemoveItem, local_fallback,
    storageGet, storageSet, init, init_stepwise, init_begin, init_resume,
    on_wrapper, wrapper_ready, this_initialized,
    set_this_initialized, vkBridge_undefined, vkBridge_send, reply_keys,
    getItem, setItem, removeItem, cache_set, cache_delete,
    when, try_catch, bind, ret, ready, handshakes in *.

(** Split a world into its fields and decide the wrapper's state and
    the presence of [vkBridge]. *)
Ltac open_world w :=
  let gt := fresh "gt" in let st := fresh "st" in
  let vd := fresh "vd" in let rj := fresh "rj" in
  let wr := fresh "wr" in
  destruct w as [[gt st vd rj] ? ? wr ? ? ? ?];
  cbn in *; subst;
  try (destruct wr as [[|]|]; try discriminate);
  try (destruct vd; try discriminate);
  cbn in *.

Ltac plain_scrutinee x :=
  lazymatch x with
  | context [match _ with _ => _ end] => fail
  | _ => idtac
  end.

(** Case analysis on whatever the next branch of the code tests. *)
Ltac break_if :=
  repeat (cbn in *;
          match goal with
          | H : ?x = _ |- context [match ?x with _ => _ end] => rewrite H
          | |- context [match ?x with _ => _ end] =>
              plain_scrutinee x; destruct x eqn:?
          end);
  cbn in *.

(** Refute a combination of remote answers that cannot occur. *)
Ltac absurd_remote :=
  exfalso;
  repeat match goal with
         | H : negb (String.eqb _ _) = true |- _ =>
             apply negb_true_iff, String.eqb_neq in H
         | H : negb (String.eqb _ _) = false |- _ =>
             apply negb_false_iff, String.eqb_eq in H
         | H : _ \/ _ |- _ => destruct H
         | H : ex _ |- _ => destruct H
         | H : _ /\ _ |- _ => destruct H
         end;
  congruence.

(** The two halves of [init], run back to back, are [init]. *)
Lemma init_stepwise_init (w : World) : init_stepwise w = init w.
Proof. unfold_bridge. open_world w; break_if; reflexivity. Qed.

(** The wrapper's storage methods never throw on an existing wrapper. *)
Lemma storageGet_total (w : World) (k : string) :
  wrapper w <> None -> exists r, fst (storageGet k w) = Normal r.
Proof.
  intros Hw. unfold_bridge. open_world w; try congruence; break_if; eauto.
Qed.

Lemma storageSet_total (w : World) (k v : string) :
  wrapper w <> None -> exists r, fst (storageSet k v w) = Normal r.
Proof.
  intros Hw. unfold_bridge. open_world w; try congruence; break_if; eauto.
Qed.

(** C1 (as amended): [set] and [remove] never propagate an exception,
    whatever the two backends do, and resolve to [undefined]; [get]
    never propagates one as long as reading the key from the local
    backend does not throw, and then resolves to Absent or a string. *)
Theorem bridge_absorbs_failures (w : World) (k v : string) :
  fst (enhancedSetItem k v w) = Normal VUndef /\
  fst (enhancedRemoveItem k w) = Normal VUndef /\
  (getItem_throws (env w) k = false ->
   exists r : option string, fst (enhancedGetItem k w) = Normal r).
Proof.
  split; [|split].
  - unfold_bridge. open_world w; break_if; reflexivity.
  - unfold_bridge. open_world w; break_if; reflexivity.
  - intros Hg. unfold_bridge. open_world w; break_if; eauto.
Qed.

Lemma bridge_absorbs_failures_witness :
  getItem_throws (env scenario_C) "k" = false /\
  fst (enhancedSetItem "k" "v" scenario_C) = Normal VUndef /\
  fst (enhancedRemoveItem "k" scenario_C) = Normal VUndef /\
  exists r : option string, fst (enhancedGetItem "k" scenario_C) = Normal r.
Proof.
  split; [reflexivity|].
  destruct (bridge_absorbs_failures scenario_C "k" "v") as (Hs & Hr & Hg).
  split; [exact Hs|]. split; [exact Hr|]. apply Hg. reflexivity.
Defined.

(** C1, counterexample: when the local read throws, the read in the
    [catch] handler of [enhancedGetItem] throws again and the promise
    rejects. *)
Lemma get_propagates_local_read_failure :
  fst (enhancedGetItem "progress"
         (world locked (Some false) {["progress" := "{level:1}"]} ∅))
  = Throw "SecurityError".
Proof. vm_compute. reflexivity. Qed.

(** C2 (as amended): whatever the remote backend does, [set] resolves,
    its first backend operation is the local write and anything after
    it is a platform call; and when the local backend accepts the
    write, it holds the value once [set] has resolved. *)
Theorem set_local_durability (w : World) (k v : string) :
  let w' := snd (enhancedSetItem k v w) in
  (exists r, fst (enhancedSetItem k v w) = Normal r) /\
  (exists rest,
     trace w' = trace w ++ LocalSet k v :: rest /\
     Forall (fun e => is_send e = true) rest) /\
  (setItem_throws (env w) k v = false -> localStorage w' !! k = Some v).
Proof.
  unfold_bridge. open_world w; break_if.
  all: split; [eauto|]; split;
    [ eexists; rewrite <- ?app_assoc; cbn; split; [reflexivity|];
      repeat constructor
    | intros; try discriminate; rewrite ?lookup_insert_eq; reflexivity ].
Qed.

Lemma set_local_durability_witness :
  setItem_throws (env scenario_C) "k" "v" = false /\
  localStorage (snd (enhancedSetItem "k" "v" scenario_C)) !! "k" = Some "v".
Proof.
  split; [reflexivity|].
  apply (set_local_durability scenario_C "k" "v"). reflexivity.
Defined.

(** C2, counterexample: the local backend refuses the write (quota);
    [set] resolves all the same and the value is not there. *)
Lemma set_not_durable_when_storage_full :
  let w := world full (Some false) ∅ ∅ in
  fst (enhancedSetItem "k" "v" w) = Normal VUndef /\
  localStorage (snd (enhancedSetItem "k" "v" w)) !! "k" = None.
Proof. vm_compute. split; reflexivity. Qed.

(** C3 (as amended): a ready remote backend that answers the read of
    [k] with a non-empty [v] wins over whatever the local backend
    holds, provided the local backend accepts the write of [v]: [get]
    returns [v], the cache records it and the local backend is
    overwritten with it. *)
Theorem get_prefers_remote (w : World) (k v : string) :
  ready w = true ->
  fst (storageGet k w) = Normal (Some v) ->
  v <> "" ->
  setItem_throws (env w) k v = false ->
  fst (enhancedGetItem k w) = Normal (Some v) /\
  vkStorageCache (snd (enhancedGetItem k w)) !! k = Some v /\
  localStorage (snd (enhancedGetItem k w)) !! k = Some v.
Proof.
  intros Hr Hg Hv Hs. unfold_bridge. open_world w; try discriminate.
  destruct (rj _) eqn:Hrj; cbn in *; try discriminate.
  injection Hg as Hg. rewrite Hg.
  apply String.eqb_neq in Hv. rewrite Hv. cbn. rewrite Hs. cbn.
  rewrite !lookup_insert_eq. auto.
Qed.

Lemma get_prefers_remote_witness :
  localStorage scenario_A !! "progress" = Some "{level:1}" /\
  fst (enhancedGetItem "progress" scenario_A) = Normal (Some "{level:3}") /\
  vkStorageCache (snd (enhancedGetItem "progress" scenario_A)) !! "progress"
    = Some "{level:3}" /\
  localStorage (snd (enhancedGetItem "progress" scenario_A)) !! "progress"
    = Some "{level:3}".
Proof.
  split; [reflexivity|].
  apply (get_prefers_remote scenario_A "progress" "{level:3}");
    [reflexivity | reflexivity | discriminate | reflexivity].
Defined.


(** C3, counterexample: the remote backend is ready and has a newer
    value, but the local backend refuses the write-through; the
    [catch] handler answers with the stale local value. *)
Lemma get_returns_stale_value_when_storage_full :
  let w := world full (Some true)
             {["progress" := "{level:1}"]} {["progress" := "{level:3}"]} in
  fst (storageGet "progress" w) = Normal (Some "{level:3}") /\
  fst (enhancedGetItem "progress" w) = Normal (Some "{level:1}") /\
  localStorage (snd (enhancedGetItem "progress" w)) !! "progress"
    = Some "{level:1}".
Proof. vm_compute. repeat split; reflexivity. Qed.

(** C4: when the remote backend is not ready, or its read of [k]
    throws, fails or yields nothing or the empty string, or the
    write-through of a remote value throws, [get] returns the value
    [v] the local backend holds.  Not ready: the local read is the
    only backend operation.  Ready with nothing for [k]: the local
    value is then handed to the wrapper's [storageSet], which sends it
    to the platform, where it is stored unless the platform rejects
    the call. *)
Theorem get_falls_back_to_local (w : World) (k v : string) :
  fst (getItem k w) = Normal (Some v) ->
  ready w = false \/
  (exists e, fst (storageGet k w) = Throw e) \/
  fst (storageGet k w) = Normal None \/
  fst (storageGet k w) = Normal (Some "") \/
  (exists x, fst (storageGet k w) = Normal (Some x) /\
             setItem_throws (env w) k x = true) ->
  let w' := snd (enhancedGetItem k w) in
  fst (enhancedGetItem k w) = Normal (Some v) /\
  (ready w = false -> trace w' = trace w ++ [LocalGet k]) /\
  (ready w = true ->
   fst (storageGet k w) = Normal None \/
   fst (storageGet k w) = Normal (Some "") ->
   w' = snd (storageSet k v (snd (getItem k (snd (storageGet k w))))) /\
   (vkBridge_defined (env w) = true ->
    trace w' = trace w ++ [Send (VKWebAppStorageGet k); LocalGet k;
                           Send (VKWebAppStorageSet k v)] /\
    (vk_rejects (env w) (S (vk_sent w)) = false ->
     vk_storage w' !! k = Some v))).
Proof.
  intros Hlocal Hremote. unfold_bridge.
  open_world w; destruct (gt k) eqn:Hg; try discriminate;
    injection Hlocal as Hlocal; rewrite ?Hlocal; break_if.
  all: try solve [absurd_remote].
  all: repeat split; try discriminate; intros;
    rewrite <- ?app_assoc, ?lookup_insert_eq; try reflexivity.
  all: rewrite ?Hlocal; try reflexivity.
  all: solve [absurd_remote].
Qed.

Lemma get_falls_back_to_local_witness :
  ready scenario_B = false /\
  fst (enhancedGetItem "progress" scenario_B) = Normal (Some "{level:1}").
Proof.
  split; [reflexivity|].
  apply (get_falls_back_to_local scenario_B "progress" "{level:1}");
    [reflexivity | left; reflexivity].
Defined.

(** A ready remote backend whose platform rejects every call: the
    failure stays inside the wrapper and [get] answers from the local
    backend. *)
Example get_when_platform_rejects :
  let w := world rejecting (Some true) {["progress" := "{level:1}"]} ∅ in
  fst (storageGet "progress" w) = Normal None /\
  fst (enhancedGetItem "progress" w) = Normal (Some "{level:1}").
Proof. vm_compute. split; reflexivity. Qed.

(** The same with a ready remote backend that has nothing for the key:
    the local value is returned and ends up on the platform. *)
Example get_syncs_local_value_up :
  let w := world quiet (Some true) {["progress" := "{level:1}"]} ∅ in
  fst (enhancedGetItem "progress" w) = Normal (Some "{level:1}") /\
  vk_storage (snd (enhancedGetItem "progress" w)) !! "progress"
    = Some "{level:1}".
Proof. vm_compute. split; reflexivity. Qed.

(** With nothing for the key in the local backend and nothing, or the
    empty string, on a ready platform, [get] returns Absent. *)
Lemma get_absent (w : World) (k : string) :
  getItem_throws (env w) k = false ->
  localStorage w !! k = None ->
  (ready w = true -> vkBridge_defined (env w) = true ->
   default "" (vk_storage w !! k) = "") ->
  fst (enhancedGetItem k w) = Normal None.
Proof.
  intros Hg Hl Hremote. unfold_bridge.
  open_world w; rewrite ?Hl; try rewrite Hremote by reflexivity;
    break_if; rewrite ?Hl; reflexivity.
Qed.

(** What [remove] does to the world. *)
Lemma remove_effect (w : World) (k : string) :
  let w' := snd (enhancedRemoveItem k w) in
  fst (enhancedRemoveItem k w) = Normal VUndef /\
  env w' = env w /\ wrapper w' = wrapper w /\
  localStorage w' = delete k (localStorage w) /\
  vkStorageCache w' = delete k (vkStorageCache w) /\
  (ready w = false -> trace w' = trace w ++ [LocalRemove k]) /\
  (ready w = true -> vkBridge_defined (env w) = true ->
   trace w' = trace w ++ [LocalRemove k; Send (VKWebAppStorageSet k "")] /\
   (vk_rejects (env w) (vk_sent w) = false ->
    vk_storage w' = <[k := ""]> (vk_storage w))).
Proof.
  unfold_bridge. open_world w; break_if.
  all: repeat split; intros; try discriminate; rewrite <- ?app_assoc;
    reflexivity.
Qed.

(** C5 (as amended): [remove] resolves to [undefined] and deletes the
    key from the local backend and from the cache, whatever the
    platform does; on a ready remote backend it sends an empty string
    for the key, which the platform stores unless it rejects the call.
    A later [get] of the key, with no local value written in between
    and the remote value as [remove] left it, returns Absent if at that
    time the remote backend is not ready (or [vkBridge] is missing), or
    if [remove] ran on a ready backend and the platform accepted its
    write; the [get] that follows [remove] at once is the first case
    of it. *)
Theorem remove_clears (w : World) (k : string) :
  let w' := snd (enhancedRemoveItem k w) in
  fst (enhancedRemoveItem k w) = Normal VUndef /\
  localStorage w' !! k = None /\
  vkStorageCache w' !! k = None /\
  (ready w = false ->
   trace w' = trace w ++ [LocalRemove k] /\ vk_storage w' = vk_storage w) /\
  (ready w = true -> vkBridge_defined (env w) = true ->
   trace w' = trace w ++ [LocalRemove k; Send (VKWebAppStorageSet k "")] /\
   (vk_rejects (env w) (vk_sent w) = false -> vk_storage w' !! k = Some "")) /\
  (getItem_throws (env w) k = false ->
   (ready w = true -> vkBridge_defined (env w) = true ->
    vk_rejects (env w) (vk_sent w) = false) ->
   fst (enhancedGetItem k w') = Normal None) /\
  (forall later : World,
     env later = env w ->
     localStorage later !! k = None ->
     vk_storage later !! k = vk_storage w' !! k ->
     getItem_throws (env w) k = false ->
     ready later = false \/ vkBridge_defined (env w) = false \/
     (ready w = true /\ vk_rejects (env w) (vk_sent w) = false) ->
     fst (enhancedGetItem k later) = Normal None).
Proof.
  intros w'.
  destruct (remove_effect w k) as (Hres & He & Hw & Hl & Hc & Hidle & Hready).
  fold w' in He, Hw, Hl, Hc, Hidle, Hready.
  assert (Hlater : forall later : World,
             env later = env w ->
             localStorage later !! k = None ->
             vk_storage later !! k = vk_storage w' !! k ->
             getItem_throws (env w) k = false ->
             ready later = false \/ vkBridge_defined (env w) = false \/
             (ready w = true /\ vk_rejects (env w) (vk_sent w) = false) ->
             fst (enhancedGetItem k later) = Normal None).
  { intros later Hel Hll Hvl Hg Hcase. apply get_absent.
    - rewrite Hel. exact Hg.
    - exact Hll.
    - rewrite Hel. intros Hr Hd. rewrite Hvl.
      destruct Hcase as [Hn | [Hu | [Hr0 Hacc]]]; [congruence | congruence |].
      destruct (Hready Hr0 Hd) as [_ Hvk].
      rewrite (Hvk Hacc), lookup_insert_eq. reflexivity. }
  split; [exact Hres|].
  split; [rewrite Hl; apply lookup_delete_eq|].
  split; [rewrite Hc; apply lookup_delete_eq|].
  split.
  { intros Hr. split; [exact (Hidle Hr)|].
    clear -Hr. subst w'. unfold_bridge.
    open_world w; try discriminate; break_if; reflexivity. }
  split.
  { intros Hr Hd. destruct (Hready Hr Hd) as [Htr Hvk].
    split; [exact Htr|]. intros Hacc. rewrite (Hvk Hacc).
    apply lookup_insert_eq. }
  split; [|exact Hlater].
  intros Hg Hacc. apply Hlater; auto.
  - rewrite Hl. apply lookup_delete_eq.
  - assert (Hrw : ready w' = ready w) by (unfold ready; rewrite Hw; reflexivity).
    destruct (ready w) eqn:Hr; [|left; exact Hrw].
    destruct (vkBridge_defined (env w)) eqn:Hd; [|right; left; reflexivity].
    right; right. split; [reflexivity|]. apply Hacc; reflexivity.
Qed.

Lemma remove_clears_witness :
  let w' := snd (enhancedRemoveItem "progress" scenario_A) in
  localStorage w' !! "progress" = None /\
  vk_storage w' !! "progress" = Some "" /\
  fst (enhancedGetItem "progress" w') = Normal None /\
  fst (enhancedGetItem "progress" (with_wrapper (Some false) w')) = Normal None.
Proof.
  destruct (remove_clears scenario_A "progress")
    as (_ & Hl & _ & _ & Hr & Hget & Hlater).
  split; [exact Hl|].
  split; [apply Hr; reflexivity|].
  split; [apply Hget; reflexivity|].
  apply Hlater; [reflexivity | exact Hl | reflexivity | reflexivity |].
  left. reflexivity.
Defined.

(** C5, counterexample: the platform rejects the write of [remove];
    the old remote value survives and the next [get] brings it back,
    into the local backend too. *)
Lemma remove_rejected_then_get :
  let w := world flaky (Some true) {["progress" := "{level:1}"]}
             {["progress" := "{level:3}"]} in
  let w1 := snd (enhancedRemoveItem "progress" w) in
  localStorage w1 !! "progress" = None /\
  fst (enhancedGetItem "progress" w1) = Normal (Some "{level:3}") /\
  localStorage (snd (enhancedGetItem "progress" w1)) !! "progress"
    = Some "{level:3}".
Proof. vm_compute. repeat split; reflexivity. Qed.

(** A [remove] issued before the remote backend is ready clears the
    local side only: once the handshake has completed, [get] returns
    the value the platform still holds. *)
Example remove_before_handshake_then_get :
  let w := world quiet (Some false) {["progress" := "{level:1}"]}
             {["progress" := "{level:3}"]} in
  let w1 := snd (enhancedRemoveItem "progress" w) in
  let w2 := snd (init w1) in
  localStorage w2 !! "progress" = None /\
  fst (enhancedGetItem "progress" w1) = Normal None /\
  fst (enhancedGetItem "progress" w2) = Normal (Some "{level:3}").
Proof. vm_compute. repeat split; reflexivity. Qed.


(** C6 (as amended): [set] resolves to [undefined] on every path; on
    a platform that rejects every call it resolves all the same, with
    the value in the local backend whenever the local backend accepts
    the write. *)
Theorem set_resolves_to_undefined (w : World) (k v : string) :
  fst (enhancedSetItem k v w) = Normal VUndef /\
  ((forall n, vk_rejects (env w) n = true) ->
   setItem_throws (env w) k v = false ->
   localStorage (snd (enhancedSetItem k v w)) !! k = Some v /\
   vk_storage (snd (enhancedSetItem k v w)) = vk_storage w).
Proof.
  split.
  - unfold_bridge. open_world w; break_if; reflexivity.
  - intros Hrej Hk. unfold_bridge. open_world w; break_if.
    all: try (rewrite Hrej in *; discriminate).
    all: rewrite ?lookup_insert_eq; split; reflexivity.
Qed.

Lemma set_resolves_to_undefined_witness :
  (forall n, vk_rejects (env scenario_C) n = true) /\
  setItem_throws (env scenario_C) "k" "v" = false /\
  fst (enhancedSetItem "k" "v" scenario_C) = Normal VUndef /\
  localStorage (snd (enhancedSetItem "k" "v" scenario_C)) !! "k" = Some "v".
Proof.
  split; [intros n; reflexivity|]. split; [reflexivity|].
  destruct (set_resolves_to_undefined scenario_C "k" "v") as [Hres Hlocal].
  split; [exact Hres|].
  apply Hlocal; [intros n; reflexivity | reflexivity].
Defined.

(** C6, counterexample: in Scenario C the value [set] resolves to is
    neither a boolean nor truthy. *)
Lemma set_result_is_not_a_boolean :
  exists r : JsVal,
    fst (enhancedSetItem "k" "v" scenario_C) = Normal r /\
    is_boolean r = false /\ truthy r = false.
Proof. exists VUndef. vm_compute. repeat split; reflexivity. Qed.

(** C7 (as amended): [init] never throws.  Only success is remembered:
    on an initialized wrapper [init] returns [true] without any
    platform call, so after one successful call every later call is
    free.  A call that finds the wrapper not initialized, after a
    failed handshake or while another call still awaits the platform,
    makes its own [VKWebAppInit] call, and so does every [storageGet]
    and [storageSet] of the wrapper (without [vkBridge] it resolves to
    [false] at once, with no call).  When the platform has answered,
    the call resolves to [true] exactly if its own call was accepted,
    and then marks the wrapper initialized; a rejected call resolves to
    [false] and leaves the mark as the calls that overlapped it left
    it.  So a call that no other call overlaps resolves to the
    readiness it leaves behind. *)
Theorem init_memoizes_success (w later : World) (k v : string)
    (answer : outcome Reply) :
  wrapper w <> None ->
  wrapper later <> None ->
  let w' := snd (init w) in
  let begun := snd (init_begin w) in
  let resumed := snd (init_resume answer later) in
  (init_stepwise w = init w /\ fst (init w) = Normal (ready w')) /\
  (ready w = true ->
   init w = (Normal true, w) /\ init_begin w = (Normal (Returned true), w)) /\
  (fst (init w) = Normal true -> init w' = (Normal true, w')) /\
  (ready w = false -> vkBridge_defined (env w) = true ->
   (exists a, fst (init_begin w) = Normal (Awaiting a) /\
              accepted a = negb (vk_rejects (env w) (vk_sent w))) /\
   handshakes begun = S (handshakes w) /\
   ready begun = false /\
   handshakes w' = S (handshakes w) /\
   ready w' = negb (vk_rejects (env w) (vk_sent w)) /\
   handshakes (snd (storageGet k w)) = S (handshakes w) /\
   handshakes (snd (storageSet k v w)) = S (handshakes w)) /\
  (fst (init_resume answer later) = Normal (accepted answer) /\
   ready resumed = accepted answer || ready later /\
   trace resumed = trace later) /\
  (ready w = false -> vkBridge_defined (env w) = false ->
   init w = (Normal false, w) /\ init_begin w = (Normal (Returned false), w)).
Proof.
  intros Hw Hlater. cbv zeta.
  split; [|split; [|split; [|split; [|split]]]].
  - clear Hlater. unfold_bridge.
    open_world w; try congruence; break_if; split; reflexivity.
  - clear Hlater. unfold_bridge.
    open_world w; try congruence; break_if; intros; try discriminate;
      split; reflexivity.
  - clear Hlater. unfold_bridge.
    open_world w; try congruence; break_if; intros; try discriminate;
      reflexivity.
  - clear Hlater. unfold_bridge.
    open_world w; try congruence; break_if; intros; try discriminate.
    all: repeat split; eauto; try reflexivity.
    all: rewrite ?List.filter_app, ?length_app; cbn; lia.
  - clear Hw. unfold_bridge.
    open_world later; try congruence; destruct answer; cbn;
      repeat split; reflexivity.
  - clear Hlater. unfold_bridge.
    open_world w; try congruence; break_if; intros; try discriminate;
      split; reflexivity.
Qed.

Lemma init_memoizes_success_witness :
  fst (init scenario_B) = Normal true /\
  init (snd (init scenario_B)) = (Normal true, snd (init scenario_B)) /\
  handshakes (snd (init scenario_B)) = 1 /\
  handshakes (snd (storageSet "k" "v" scenario_B)) = 1 /\
  fst (init_resume (Throw "rejected") scenario_A) = Normal false /\
  ready (snd (init_resume (Throw "rejected") scenario_A)) = true.
Proof.
  destruct (init_memoizes_success scenario_B scenario_A "progress" "v"
              (Throw "rejected"))
    as (_ & _ & Hagain & Hcall & Hresume & _);
    [discriminate | discriminate |].
  split; [reflexivity|]. split; [apply Hagain; reflexivity|].
  destruct (Hcall eq_refl eq_refl) as (_ & _ & _ & Hh & _ & _ & Hset).
  split; [exact Hh|].
  split; [exact Hset|].
  destruct Hresume as (Hr1 & Hr2 & _).
  split; [exact Hr1 | exact Hr2].
Defined.

(** C7, counterexample: after a failed handshake the next [init] calls
    the platform again and the two callers see different results; the
    wrapper's own storage methods retry it too; and two overlapping
    calls both reach the platform. *)
Lemma failed_handshake_is_retried :
  let w := world flaky (Some false) ∅ ∅ in
  let w1 := snd (init w) in
  let w2 := snd (init w1) in
  fst (init w) = Normal false /\
  fst (init w1) = Normal true /\
  handshakes w2 = 2 /\
  handshakes (snd (storageGet "progress" w1)) = 2 /\
  let o := world quiet (Some false) ∅ ∅ in
  handshakes (snd (init_begin (snd (init_begin o)))) = 2.
Proof. vm_compute. repeat split; reflexivity. Qed.

(** The loop of [initialize] only sleeps, at most [remaining] times,
    and leaves everything but the wrapper's readiness as it was. *)
Lemma wait_for_bridge_sleeps (hc : nat -> bool) (remaining : nat) :
  forall (attempts : nat) (w : World),
    wrapper w <> None ->
    exists n w',
      wait_for_bridge hc remaining attempts w = (Normal tt, w') /\
      n <= remaining /\
      trace w' = trace w ++ repeat (Sleep 100) n /\
      wrapper w' <> None /\
      env w' = env w /\ localStorage w' = localStorage w /\
      isInitialized w' = isInitialized w /\
      ((forall i, hc i = false) -> ready w = false ->
       ready w' = false /\ n = remaining).
Proof.
  induction remaining as [|r IH]; intros attempts w Hw.
  - exists 0, w. cbn. rewrite app_nil_r. repeat split; auto.
  - cbn [wait_for_bridge]. unfold bind, this_initialized.
    destruct (wrapper w) as [[|]|] eqn:Hwr; try congruence; cbn.
    + exists 0, w. cbn. rewrite app_nil_r, Hwr.
      repeat split; auto with lia; unfold ready in *; rewrite Hwr in *;
        discriminate.
    + unfold sleep. cbn.
      match goal with
      | |- context [wait_for_bridge hc r (S attempts) ?x] =>
          destruct (IH (S attempts) x)
            as (n & w' & Heq & Hn & Htr & Hw' & He & Hl & Hi & Hnever)
      end.
      { destruct (hc attempts); cbn; rewrite ?Hwr; discriminate. }
      exists (S n), w'. rewrite Heq.
      repeat split; auto with lia.
      * rewrite Htr. destruct (hc attempts); cbn; rewrite <- app_assoc;
          reflexivity.
      * rewrite He. destruct (hc attempts); reflexivity.
      * rewrite Hl. destruct (hc attempts); reflexivity.
      * rewrite Hi. destruct (hc attempts); reflexivity.
      * apply Hnever; auto.
        rewrite (ltac:(assumption) : forall i, hc i = false).
        unfold ready; cbn. rewrite Hwr. reflexivity.
      * f_equal. apply Hnever; auto.
        rewrite (ltac:(assumption) : forall i, hc i = false).
        unfold ready; cbn. rewrite Hwr. reflexivity.
Qed.


(** The bridge never starts a handshake of its own. *)
Lemma bridge_never_handshakes (w : World) (k v : string) :
  handshakes (snd (enhancedGetItem k w)) = handshakes w /\
  handshakes (snd (enhancedSetItem k v w)) = handshakes w /\
  handshakes (snd (enhancedRemoveItem k w)) = handshakes w.
Proof.
  unfold_bridge. open_world w; break_if.
  all: repeat split; rewrite ?List.filter_app, ?length_app; cbn; lia.
Qed.

(** With the remote backend not ready, [get] is one local read. *)
Lemma get_not_ready (w : World) (k x : string) :
  ready w = false ->
  fst (getItem k w) = Normal (Some x) ->
  fst (enhancedGetItem k w) = Normal (Some x) /\
  trace (snd (enhancedGetItem k w)) = trace w ++ [LocalGet k].
Proof.
  intros Hready. unfold_bridge.
  open_world w; try discriminate; break_if; try discriminate.
  all: intros Hlocal; injection Hlocal as Hlocal; rewrite ?Hlocal; cbn;
    split; reflexivity.
Qed.

(** C9 (as amended): [get] writes the cache entry of [k] exactly when
    the ready remote backend answered with a non-empty value, [set]
    exactly when the local write went through and the ready remote
    backend accepted the value; local-only reads and writes leave the
    cache as it is; [remove] deletes the entry of [k]; and no entry of
    another key is ever touched. *)
Theorem cache_lifecycle (w : World) (k v : string) :
  let remote_up :=
    ready w && vkBridge_defined (env w)
    && negb (vk_rejects (env w) (vk_sent w)) in
  let remote_value := default "" (vk_storage w !! k) in
  vkStorageCache (snd (enhancedGetItem k w)) =
    (if remote_up && negb (String.eqb remote_value "")
     then <[k := remote_value]> (vkStorageCache w)
     else vkStorageCache w) /\
  vkStorageCache (snd (enhancedSetItem k v w)) =
    (if negb (setItem_throws (env w) k v) && remote_up
     then <[k := v]> (vkStorageCache w)
     else vkStorageCache w) /\
  vkStorageCache (snd (enhancedRemoveItem k w)) = delete k (vkStorageCache w).
Proof.
  unfold_bridge. open_world w; break_if.
  all: repeat split; try reflexivity.
Qed.

(** C9, counterexample: with the remote backend not ready, a read that
    finds the value locally and a write that succeeds locally both
    leave the cache without an entry for the key. *)
Lemma local_only_operations_bypass_cache :
  fst (enhancedGetItem "progress" scenario_B) = Normal (Some "{level:1}") /\
  vkStorageCache (snd (enhancedGetItem "progress" scenario_B)) !! "progress"
    = None /\
  localStorage (snd (enhancedSetItem "k" "v" scenario_B)) !! "k" = Some "v" /\
  vkStorageCache (snd (enhancedSetItem "k" "v" scenario_B)) !! "k" = None.
Proof. vm_compute. repeat split; reflexivity. Qed.

End BridgeSpec.

(** * Properties of [calculateNextLevel] *)

Module NextLevelSpec.
Import NextLevel.
Local Open Scope outcome_scope.

Section Facts.

Variable co : Coercions.
Variable h : Heap.

Lemma find_index_lookup (l : list JsVal) (x : JsVal) :
  forall i, find_index l x = Some i -> l !! i = Some x.
Proof.
  induction l as [|y l IH]; intros i Hi; cbn in Hi; [discriminate|].
  unfold strict_eq in Hi. case_bool_decide.
  - injection Hi as <-. cbn. congruence.
  - destruct (find_index l x) as [j|]; [|discriminate].
    injection Hi as <-. cbn. apply IH. reflexivity.
Qed.

Lemma find_index_elem (l : list JsVal) (x : JsVal) :
  x ∈ l -> is_Some (find_index l x).
Proof.
  induction l as [|y l IH]; intros Hx.
  - inversion Hx.
  - cbn. unfold strict_eq. case_bool_decide; [eauto|].
    apply elem_of_cons in Hx as [Hx|Hx]; [congruence|].
    destruct (IH Hx) as [j Hj]. rewrite Hj. eauto.
Qed.

(** [indexOf] of a value that occurs is a position holding it. *)
Lemma indexOf_elem (l : list JsVal) (x : JsVal) :
  x ∈ l -> (0 <= indexOf l x)%Z /\ l !! Z.to_nat (indexOf l x) = Some x.
Proof.
  intros Hx. unfold indexOf.
  destruct (find_index_elem l x Hx) as [i Hi]. rewrite Hi.
  split; [lia|]. rewrite Nat2Z.id. apply find_index_lookup. exact Hi.
Qed.

(** [indexOf] that is not -1 is a position holding the value. *)
Lemma indexOf_found (l : list JsVal) (x : JsVal) :
  indexOf l x <> (-1)%Z ->
  (0 <= indexOf l x < Z.of_nat (length l))%Z /\
  l !! Z.to_nat (indexOf l x) = Some x.
Proof.
  unfold indexOf. destruct (find_index l x) as [i|] eqn:Hi; [|congruence].
  intros _. apply find_index_lookup in Hi. rewrite Nat2Z.id.
  split; [|exact Hi]. apply lookup_lt_Some in Hi. lia.
Qed.

(** Every group that survives the filter is one of the groups and has
    a falsy [isCustom]. *)
Lemma filter_not_custom_elem (groups : list JsVal) :
  forall kept g,
    filter_not_custom h groups = Normal kept -> g ∈ kept ->
    g ∈ groups /\
    exists c, get_prop h g "isCustom" = Normal c /\ truthy c = false.
Proof.
  induction groups as [|g0 groups IH]; intros kept g Hf Hg; cbn in Hf.
  - injection Hf as <-. inversion Hg.
  - destruct (get_prop h g0 "isCustom") as [c|] eqn:Hc; [|discriminate].
    cbn in Hf.
    destruct (filter_not_custom h groups) as [rest|] eqn:Hr; [|discriminate].
    cbn in Hf. injection Hf as <-.
    destruct (truthy c) eqn:Ht; cbn in Hg.
    + destruct (IH rest g eq_refl Hg) as [Hin Hcustom].
      split; [right; exact Hin | exact Hcustom].
    + apply elem_of_cons in Hg as [->|Hg].
      * split; [left | eauto].
      * destruct (IH rest g eq_refl Hg) as [Hin Hcustom].
        split; [right; exact Hin | exact Hcustom].
Qed.

Lemma get_index_in_range (l : list JsVal) (z : Z) (x : JsVal) :
  (0 <= z)%Z -> l !! Z.to_nat z = Some x -> get_index co l (VNum z) = x.
Proof.
  intros Hz Hx. unfold get_index.
  destruct (0 <=? z)%Z eqn:Hle; [|lia]. rewrite Hx. reflexivity.
Qed.

Lemma get_index_elem (l : list JsVal) (z : Z) :
  (0 <= z < Z.of_nat (length l))%Z -> get_index co l (VNum z) ∈ l.
Proof.
  intros Hz.
  destruct (lookup_lt_is_Some_2 l (Z.to_nat z)) as [x Hx]; [lia|].
  rewrite (get_index_in_range l z x) by (lia || exact Hx).
  apply list_elem_of_lookup. eauto.
Qed.

(** [indexOf] that is not -1 comes from a position [find_index] found. *)
Lemma indexOf_find_index (l : list JsVal) (x : JsVal) :
  indexOf l x <> (-1)%Z -> find_index l x = Some (Z.to_nat (indexOf l x)).
Proof.
  unfold indexOf. destruct (find_index l x) as [i|]; [|congruence].
  intros _. rewrite Nat2Z.id. reflexivity.
Qed.

Lemma indexOf_elem_find (l : list JsVal) (x : JsVal) :
  x ∈ l -> find_index l x = Some (Z.to_nat (indexOf l x)).
Proof.
  intros Hx. apply indexOf_find_index.
  unfold indexOf. destruct (find_index_elem l x Hx) as [i ->]. lia.
Qed.

End Facts.

(** Below 2^53 in magnitude every integer is a double. *)
Lemma to_double_exact (z : Z) :
  (Z.abs z < 2 ^ 53)%Z -> to_double z = z.
Proof.
  intros Hz. unfold to_double.
  destruct (Z.abs z <? 2 ^ 53)%Z eqn:Hlt; [reflexivity|].
  apply Z.ltb_ge in Hlt. lia.
Qed.

(** Rounding keeps the sign. *)
Lemma to_double_nonneg (z : Z) : (0 <= z)%Z -> (0 <= to_double z)%Z.
Proof.
  intros Hz. unfold to_double.
  destruct (Z.abs z <? 2 ^ 53)%Z; [exact Hz|].
  set (e := (Z.log2 (Z.abs z) - 52)%Z).
  assert (Hq : (0 <= Z.abs z / 2 ^ e)%Z)
    by (apply Z_div_nonneg_nonneg; [lia | apply Z.pow_nonneg; lia]).
  assert (Hp : (0 <= 2 ^ e)%Z) by (apply Z.pow_nonneg; lia).
  assert (Hs : (0 <= Z.sgn z)%Z) by lia.
  cbv zeta.
  repeat match goal with
         | |- context [if ?b then _ else _] => destruct b
         end; nia.
Qed.

(** Doubles beyond 2^53 are spaced apart: adding one to 2^53 gives
    2^53 again, and adding one to 2^53 + 2 gives 2^53 + 4. *)
Example to_double_rounds :
  to_double (2 ^ 53 + 1) = (2 ^ 53)%Z /\
  to_double (2 ^ 53 + 3) = (2 ^ 53 + 4)%Z /\
  to_double (- (2 ^ 53) - 1) = (- 2 ^ 53)%Z /\
  to_double (2 ^ 53 - 1) = (2 ^ 53 - 1)%Z /\
  to_double (2 ^ 60 + 129) = (2 ^ 60 + 256)%Z.
Proof. vm_compute. repeat split; reflexivity. Qed.

(** The length of a string counts UTF-16 code units, not bytes. *)
Example length_of_strings :
  utf16_length "level" = 5 /\ utf16_length "é" = 1 /\
  utf16_length "уровень" = 7 /\ utf16_length "🏁" = 2.
Proof. vm_compute. repeat split; reflexivity. Qed.

(** C10 (as amended): on inputs built of [undefined], [null],
    booleans, integer numbers, strings, arrays and plain objects,
    [calculateNextLevel] never throws; and when it answers
    [{nextLevel, nextLevelGroup}] for a current level [n >= 0],
    [levelGroups] is an array and [nextLevelGroup] is the first
    position in it of a group whose [isCustom] is falsy.  Either that
    group is the current one, [levelGroups[currentLevelGroup]], and
    [nextLevel] is [n + 1] as doubles add ([n + 1] itself below 2^53),
    not negative and [< levels.length] of that group; or the
    comparison fails, [nextLevel] is 0 and the group is the one that
    follows the current group in the list of groups that are not
    custom, its levels not being looked at. *)
Theorem calculateNextLevel_safe (co : Coercions) (h : Heap)
    (currentLevel currentLevelGroup levelGroups : JsVal) :
  (exists r,
     calculateNextLevel co h currentLevel currentLevelGroup levelGroups
     = Normal r) /\
  forall (n : Z) (nextLevel : JsVal) (nextLevelGroup : Z),
    currentLevel = VNum n -> (0 <= n)%Z ->
    calculateNextLevel co h currentLevel currentLevelGroup levelGroups
    = Normal (Some (nextLevel, nextLevelGroup)) ->
    let groups := elements h levelGroups in
    let current := get_index co groups currentLevelGroup in
    isArray h levelGroups = true /\
    exists (kept : list JsVal) (cur : nat) (group levels count : JsVal),
      filter_not_custom h groups = Normal kept /\
      find_index kept current = Some cur /\
      (0 <= nextLevelGroup)%Z /\
      indexOf groups group = nextLevelGroup /\
      groups !! Z.to_nat nextLevelGroup = Some group /\
      (exists c, get_prop h group "isCustom" = Normal c /\ truthy c = false) /\
      get_prop h current "levels" = Normal levels /\
      get_prop h levels "length" = Normal count /\
      ((group = current /\
        nextLevel = VNum (to_double (n + 1)) /\
        (0 <= to_double (n + 1))%Z /\
        ((n + 1 < 2 ^ 53)%Z -> to_double (n + 1) = (n + 1)%Z) /\
        less_than co nextLevel count = true)
       \/
       (kept !! S cur = Some group /\
        nextLevel = VNum 0 /\
        less_than co (VNum (to_double (n + 1))) count = false)).
Proof.
  split.
  { unfold calculateNextLevel.
    destruct (calculateNextLevel_try _ _ _ _ _); eauto. }
  intros n nextLevel nextLevelGroup -> Hn.
  unfold calculateNextLevel, calculateNextLevel_try.
  destruct (negb (truthy levelGroups) || negb (isArray h levelGroups))
    eqn:Harr; [discriminate|].
  apply orb_false_iff in Harr as [_ Harr]. apply negb_false_iff in Harr.
  cbv zeta.
  set (groups := elements h levelGroups).
  set (current := get_index co groups currentLevelGroup).
  destruct (filter_not_custom h groups) as [kept|] eqn:Hkept;
    cbn [and_then]; [|discriminate].
  destruct (length kept =? 0)%nat; [discriminate|].
  set (cur := indexOf kept current).
  destruct (cur =? -1)%Z eqn:Hcur; [discriminate|].
  apply Z.eqb_neq in Hcur.
  destruct (indexOf_found kept _ Hcur) as [Hrange Hat]. fold cur in Hrange, Hat.
  pose proof (indexOf_find_index kept current Hcur) as Hfind. fold cur in Hfind.
  rewrite (get_index_in_range co kept cur _ (proj1 Hrange) Hat).
  assert (Hgroup : current ∈ kept) by (apply list_elem_of_lookup; eauto).
  destruct (filter_not_custom_elem h groups kept current Hkept Hgroup)
    as [Hin Hcustom].
  destruct (get_prop h current "levels") as [levels|] eqn:Hlevels;
    cbn [and_then]; [|discriminate].
  destruct (get_prop h levels "length") as [count|] eqn:Hcount;
    cbn [and_then]; [|discriminate].
  cbn [add_one].
  destruct (less_than co (VNum (to_double (n + 1))) count) eqn:Hless.
  - intros Hres. injection Hres as <- <-.
    destruct (indexOf_elem groups current Hin) as [Hpos Hlook].
    split; [exact Harr|].
    exists kept, (Z.to_nat cur), current, levels, count.
    repeat (split; [assumption || reflexivity|]).
    left. split; [reflexivity|]. split; [reflexivity|].
    split; [apply to_double_nonneg; lia|].
    split; [intros Hsafe; apply to_double_exact; lia | exact Hless].
  - destruct (cur + 1 <? Z.of_nat (length kept))%Z eqn:Hnext; [|discriminate].
    apply Z.ltb_lt in Hnext.
    destruct (lookup_lt_is_Some_2 kept (Z.to_nat (cur + 1))) as [next Hnextat];
      [lia|].
    rewrite (get_index_in_range co kept (cur + 1) next ltac:(lia) Hnextat).
    intros Hres. injection Hres as <- <-.
    assert (Hnextin : next ∈ kept) by (apply list_elem_of_lookup; eauto).
    destruct (filter_not_custom_elem h groups kept next Hkept Hnextin)
      as [Hin' Hcustom'].
    destruct (indexOf_elem groups next Hin') as [Hpos Hlook].
    split; [exact Harr|].
    exists kept, (Z.to_nat cur), next, levels, count.
    repeat (split; [assumption || reflexivity|]).
    right. split; [|split; [reflexivity | exact Hless]].
    rewrite <- Hnextat. f_equal. lia.
Qed.

Lemma calculateNextLevel_safe_witness :
  calculateNextLevel no_coercion three_groups (VNum 1) (VNum 0) (VRef 0)
  = Normal (Some (VNum 0, 2%Z)) /\
  exists kept cur,
    filter_not_custom three_groups (elements three_groups (VRef 0))
    = Normal kept /\
    find_index kept (VRef 1) = Some cur /\
    kept !! S cur = Some (VRef 3) /\
    indexOf (elements three_groups (VRef 0)) (VRef 3) = 2%Z.
Proof.
  split; [reflexivity|].
  destruct (calculateNextLevel_safe no_coercion three_groups
              (VNum 1) (VNum 0) (VRef 0)) as [_ Hsafe].
  destruct (Hsafe 1%Z (VNum 0) 2%Z eq_refl ltac:(lia) eq_refl)
    as (_ & kept & cur & group & levels & count & Hkept & Hcur & _ & Hidx
        & Hlook & _ & _ & _ & Hcase).
  exists kept, cur.
  assert (Hgroup : group = VRef 3)
    by (vm_compute in Hlook; congruence).
  subst group.
  split; [exact Hkept|]. split; [exact Hcur|]. split; [|exact Hidx].
  destruct Hcase as [(Hsame & _) | (Hnext & _)]; [|exact Hnext].
  vm_compute in Hsame. discriminate.
Defined.

(** When the group's [levels] is an array, the first case says that
    the next level exists in it. *)
Corollary next_level_within_array (co : Coercions) (h : Heap)
    (group levels : JsVal) (a : nat) (ls : list JsVal) (m : Z) (count : JsVal) :
  get_prop h group "levels" = Normal levels ->
  levels = VRef a -> h a = OArr ls ->
  get_prop h levels "length" = Normal count ->
  less_than co (VNum m) count = true ->
  (m < Z.of_nat (length ls))%Z.
Proof.
  intros _ -> Ha Hcount Hless. cbn in Hcount. rewrite Ha in Hcount.
  cbn in Hcount. injection Hcount as <-. cbn in Hless. lia.
Qed.

(** C10, counterexample: from the last level of the first group the
    function moves to level 0 of the second group, which has no
    levels at all. *)
Lemma next_level_of_empty_group :
  calculateNextLevel no_coercion two_groups (VNum 0) (VNum 0) (VRef 0)
  = Normal (Some (VNum 0, 1%Z)) /\
  elements two_groups (VRef 0) !! 1 = Some (VRef 2) /\
  get_prop two_groups (VRef 2) "levels" = Normal (VRef 4) /\
  get_prop two_groups (VRef 4) "length" = Normal (VNum 0) /\
  ~ (0 < 0)%Z.
Proof. vm_compute. repeat split; try reflexivity. discriminate. Qed.

End NextLevelSpec.

(** * More on the wrapper's storage methods *)

Module WrapperSpec.
Import Bridge BridgeSpec.

(** X1: [storageSet] resolves to [true] exactly when the platform has
    stored the value, and then the wrapper is initialized; when it
    resolves to [false] the platform's storage is as before. *)
Theorem storageSet_reports_platform (w : World) (k v : string) :
  wrapper w <> None ->
  let w' := snd (storageSet k v w) in
  (fst (storageSet k v w) = Normal true /\
   vk_storage w' !! k = Some v /\ ready w' = true) \/
  (fst (storageSet k v w) = Normal false /\ vk_storage w' = vk_storage w).
Proof.
  intros Hw. unfold_bridge. open_world w; try congruence; break_if.
  all: rewrite ?lookup_insert_eq; auto.
Qed.

Lemma storageSet_reports_platform_witness :
  wrapper scenario_B <> None /\
  fst (storageSet "k" "v" scenario_B) = Normal true /\
  vk_storage (snd (storageSet "k" "v" scenario_B)) !! "k" = Some "v".
Proof.
  split; [discriminate|].
  destruct (storageSet_reports_platform scenario_B "k" "v")
    as [(Hr & Hv & _)|(Hr & _)]; [discriminate | auto | discriminate].
Defined.

(** X2: a value [storageSet] reported as stored is what the next
    [storageGet] of the key returns, if the platform accepts that
    read. *)
Theorem storageSet_storageGet (w : World) (k v : string) :
  wrapper w <> None ->
  fst (storageSet k v w) = Normal true ->
  let w1 := snd (storageSet k v w) in
  vk_rejects (env w1) (vk_sent w1) = false ->
  fst (storageGet k w1) = Normal (Some v).
Proof.
  intros Hw. unfold_bridge. open_world w; try congruence; break_if.
  all: try discriminate.
  all: intros _ Hacc; rewrite ?Hacc; cbn; rewrite ?lookup_insert_eq;
    reflexivity.
Qed.

Lemma storageSet_storageGet_witness :
  wrapper scenario_B <> None /\
  fst (storageSet "k" "v" scenario_B) = Normal true /\
  fst (storageGet "k" (snd (storageSet "k" "v" scenario_B)))
  = Normal (Some "v").
Proof.
  split; [discriminate|]. split; [reflexivity|].
  apply (storageSet_storageGet scenario_B "k" "v");
    [discriminate | reflexivity | reflexivity].
Defined.

(** X3: a storage call on a wrapper that is not initialized performs
    the handshake first.  If the platform rejects the handshake, no
    storage request is sent and the call resolves to Absent or
    [false]; if it accepts, the wrapper is initialized from then on
    and the storage request follows. *)
Theorem storage_call_handshakes_first (w : World) (k v : string) :
  wrapper w = Some false ->
  vkBridge_defined (env w) = true ->
  let wg := snd (storageGet k w) in
  let ws := snd (storageSet k v w) in
  (vk_rejects (env w) (vk_sent w) = true ->
   fst (storageGet k w) = Normal None /\
   fst (storageSet k v w) = Normal false /\
   trace wg = trace w ++ [Send VKWebAppInit] /\
   trace ws = trace w ++ [Send VKWebAppInit] /\
   ready wg = false /\ ready ws = false) /\
  (vk_rejects (env w) (vk_sent w) = false ->
   ready wg = true /\ ready ws = true /\
   trace wg = trace w ++ [Send VKWebAppInit; Send (VKWebAppStorageGet k)] /\
   trace ws = trace w ++ [Send VKWebAppInit; Send (VKWebAppStorageSet k v)] /\
   (vk_rejects (env w) (S (vk_sent w)) = false ->
    fst (storageGet k w) = Normal (Some (default "" (vk_storage w !! k))) /\
    fst (storageSet k v w) = Normal true)).
Proof.
  intros Hw Hd. unfold_bridge. open_world w; try discriminate; break_if.
  all: repeat split; intros; try discriminate; rewrite <- ?app_assoc;
    reflexivity.
Qed.

Lemma storage_call_handshakes_first_witness :
  wrapper scenario_B = Some false /\
  vkBridge_defined (env scenario_B) = true /\
  ready (snd (storageGet "progress" scenario_B)) = true /\
  fst (storageGet "progress" scenario_B) = Normal (Some "").
Proof.
  split; [reflexivity|]. split; [reflexivity|].
  destruct (storage_call_handshakes_first scenario_B "progress" "v")
    as [_ Hacc]; [reflexivity | reflexivity |].
  destruct (Hacc eq_refl) as (Hr & _ & _ & _ & Hval).
  split; [exact Hr|]. apply Hval. reflexivity.
Defined.

End WrapperSpec.

(** * How the bridge's operations compose *)

Module BridgeComposition.
Import Bridge BridgeSpec.

(** What [set] does to the world when the local write goes through. *)
Lemma set_effect (w : World) (k v : string) :
  setItem_throws (env w) k v = false ->
  let w1 := snd (enhancedSetItem k v w) in
  env w1 = env w /\ ready w1 = ready w /\
  localStorage w1 = <[k := v]> (localStorage w) /\
  (ready w = true -> vkBridge_defined (env w) = true ->
   vk_rejects (env w) (vk_sent w) = false ->
   vk_storage w1 = <[k := v]> (vk_storage w)).
Proof.
  intros Hs. unfold_bridge. open_world w; break_if.
  all: repeat split; intros; try discriminate; reflexivity.
Qed.

(** A value both backends hold is the value [get] returns. *)
Lemma get_of_agreed_value (w : World) (k v : string) :
  getItem_throws (env w) k = false ->
  setItem_throws (env w) k v = false ->
  localStorage w !! k = Some v ->
  (ready w = true -> vkBridge_defined (env w) = true ->
   default "" (vk_storage w !! k) = v) ->
  fst (enhancedGetItem k w) = Normal (Some v).
Proof.
  intros Hg Hs Hl Hr. unfold_bridge.
  open_world w; rewrite ?Hl; try rewrite Hr by reflexivity; cbn;
    break_if; rewrite ?Hl; try reflexivity.
Qed.

(** X4: a value written with [set] is what the next [get] of the key
    returns, provided both local operations go through and, on a
    ready remote backend, the platform accepted the write; the
    platform may still reject the read. *)
Theorem set_then_get (w : World) (k v : string) :
  setItem_throws (env w) k v = false ->
  getItem_throws (env w) k = false ->
  (ready w = true ->
   vkBridge_defined (env w) = true /\ vk_rejects (env w) (vk_sent w) = false) ->
  fst (enhancedGetItem k (snd (enhancedSetItem k v w))) = Normal (Some v).
Proof.
  intros Hs Hg Hacc.
  destruct (set_effect w k v Hs) as (He & Hr & Hl & Hvk).
  apply get_of_agreed_value.
  - rewrite He. exact Hg.
  - rewrite He. exact Hs.
  - rewrite Hl. apply lookup_insert_eq.
  - rewrite Hr. intros Hready _. destruct (Hacc Hready) as [Hd Hrej].
    rewrite (Hvk Hready Hd Hrej), lookup_insert_eq. reflexivity.
Qed.

Lemma set_then_get_witness :
  setItem_throws (env scenario_A) "k" "v" = false /\
  getItem_throws (env scenario_A) "k" = false /\
  fst (enhancedGetItem "k" (snd (enhancedSetItem "k" "v" scenario_A)))
  = Normal (Some "v").
Proof.
  split; [reflexivity|]. split; [reflexivity|].
  apply (set_then_get scenario_A "k" "v");
    [reflexivity | reflexivity | split; reflexivity].
Defined.

Lemma get_frame (w : World) (k k' : string) :
  k <> k' -> Loader.same_at k' w (snd (enhancedGetItem k w)).
Proof.
  intros Hne. unfold Loader.same_at. unfold_bridge. open_world w; break_if.
  all: rewrite ?lookup_insert_ne by exact Hne; auto.
Qed.

Lemma set_frame (w : World) (k k' v : string) :
  k <> k' -> Loader.same_at k' w (snd (enhancedSetItem k v w)).
Proof.
  intros Hne. unfold Loader.same_at. unfold_bridge. open_world w; break_if.
  all: rewrite ?lookup_insert_ne by exact Hne; auto.
Qed.

Lemma remove_frame (w : World) (k k' : string) :
  k <> k' -> Loader.same_at k' w (snd (enhancedRemoveItem k w)).
Proof.
  intros Hne. unfold Loader.same_at. unfold_bridge. open_world w; break_if.
  all: rewrite ?lookup_insert_ne, ?lookup_delete_ne by exact Hne; auto.
Qed.

(** X5: an operation on one key never touches another key: what the
    local backend, the cache and the platform hold for any other key
    is the same before and after [get], [set] and [remove]. *)
Theorem other_keys_untouched (w : World) (k k' v : string) :
  k <> k' ->
  Forall (fun w' : World =>
            localStorage w' !! k' = localStorage w !! k' /\
            vkStorageCache w' !! k' = vkStorageCache w !! k' /\
            vk_storage w' !! k' = vk_storage w !! k')
    [snd (enhancedGetItem k w); snd (enhancedSetItem k v w);
     snd (enhancedRemoveItem k w)].
Proof.
  intros Hne. repeat constructor.
  - apply (get_frame w k k' Hne).
  - apply (get_frame w k k' Hne).
  - apply (get_frame w k k' Hne).
  - apply (set_frame w k k' v Hne).
  - apply (set_frame w k k' v Hne).
  - apply (set_frame w k k' v Hne).
  - apply (remove_frame w k k' Hne).
  - apply (remove_frame w k k' Hne).
  - apply (remove_frame w k k' Hne).
Qed.

Lemma other_keys_untouched_witness :
  "progress" <> "userBoards" /\
  localStorage (snd (enhancedGetItem "progress" scenario_A)) !! "userBoards"
  = localStorage scenario_A !! "userBoards".
Proof.
  split; [discriminate|].
  pose proof (other_keys_untouched scenario_A "progress" "userBoards" "v"
                ltac:(discriminate)) as H.
  apply Forall_cons in H as [(Hl & _) _]. exact Hl.
Defined.

(** In a world without failures and with a ready remote backend,
    [get] leaves both backends with the value it returns. *)
Lemma get_fault_free (w : World) (k : string) :
  Loader.fault_free w -> ready w = true ->
  let w' := snd (enhancedGetItem k w) in
  fst (enhancedGetItem k w) = Normal (localStorage w' !! k) /\
  Loader.agree w' k /\ env w' = env w /\ ready w' = true.
Proof.
  intros (Hg & Hs & Hd & Hr) Hready. unfold Loader.agree.
  unfold_bridge. open_world w; try discriminate.
  rewrite ?Hg, ?Hs, ?Hr. break_if.
  all: try (rewrite ?Hg, ?Hs, ?Hr in *; discriminate).
  all: rewrite ?lookup_insert_eq; repeat split; try reflexivity.
  all: try match goal with
       | H : _ !! _ = _ |- _ => rewrite H; try reflexivity
       end.
  all: match goal with
       | H : negb (String.eqb ?x "") = false |- _ =>
           apply negb_false_iff, String.eqb_eq in H; cbn in *; congruence
       end.
Qed.

(** With nothing for the key in either backend, [get] returns
    Absent. *)
Lemma get_of_nothing (w : World) (k : string) :
  getItem_throws (env w) k = false ->
  localStorage w !! k = None ->
  (ready w = true -> vkBridge_defined (env w) = true ->
   default "" (vk_storage w !! k) = "") ->
  fst (enhancedGetItem k w) = Normal None.
Proof.
  intros Hg Hl Hremote. unfold_bridge.
  open_world w; rewrite ?Hl; try rewrite Hremote by reflexivity;
    break_if; rewrite ?Hl; reflexivity.
Qed.

(** X6: in a world without failures and with a ready remote backend,
    [get] reconciles the two backends on its key: afterwards the
    local backend holds exactly what [get] returned, the platform
    holds the same (a missing value counting as the empty string),
    and a second [get] returns the same result. *)
Theorem get_reconciles (w : World) (k : string) :
  Loader.fault_free w -> ready w = true ->
  let w' := snd (enhancedGetItem k w) in
  fst (enhancedGetItem k w) = Normal (localStorage w' !! k) /\
  Loader.agree w' k /\
  fst (enhancedGetItem k w') = fst (enhancedGetItem k w).
Proof.
  intros Hff Hready w'.
  destruct (get_fault_free w k Hff Hready) as (Hres & Hagree & He & Hr').
  fold w' in Hres, Hagree, He, Hr'.
  split; [exact Hres|]. split; [exact Hagree|].
  rewrite Hres. destruct Hff as (Hg & Hs & Hd & Hrej).
  unfold Loader.agree in Hagree.
  destruct (localStorage w' !! k) as [v|] eqn:Hl.
  - cbn in Hagree. apply get_of_agreed_value; rewrite ?He; auto.
  - cbn in Hagree. apply get_of_nothing; rewrite ?He; auto.
Qed.

Lemma get_reconciles_witness :
  Loader.fault_free scenario_A /\ ready scenario_A = true /\
  Loader.agree (snd (enhancedGetItem "progress" scenario_A)) "progress" /\
  fst (enhancedGetItem "progress" scenario_A)
  = Normal (localStorage (snd (enhancedGetItem "progress" scenario_A))
              !! "progress").
Proof.
  assert (Hff : Loader.fault_free scenario_A)
    by (repeat split; intros; reflexivity).
  split; [exact Hff|]. split; [reflexivity|].
  destruct (get_reconciles scenario_A "progress" Hff eq_refl)
    as (Hres & Hagree & _).
  split; [exact Hagree | exact Hres].
Defined.

(** What [set] leaves behind when the platform rejects its write. *)
Lemma set_rejected_effect (w : World) (k v : string) :
  setItem_throws (env w) k v = false ->
  ready w = true -> vkBridge_defined (env w) = true ->
  vk_rejects (env w) (vk_sent w) = true ->
  let w1 := snd (enhancedSetItem k v w) in
  env w1 = env w /\ ready w1 = true /\
  localStorage w1 !! k = Some v /\
  vk_storage w1 = vk_storage w /\ vk_sent w1 = S (vk_sent w).
Proof.
  intros Hs Hr Hd Hrej. unfold_bridge. open_world w; try discriminate.
  break_if; try discriminate.
  rewrite lookup_insert_eq. repeat split; reflexivity.
Qed.

(** A non-empty value read from the ready platform is returned and
    written over the local one. *)
Lemma get_takes_remote (w : World) (k u : string) :
  ready w = true -> vkBridge_defined (env w) = true ->
  vk_rejects (env w) (vk_sent w) = false ->
  vk_storage w !! k = Some u -> u <> "" ->
  setItem_throws (env w) k u = false ->
  fst (enhancedGetItem k w) = Normal (Some u) /\
  localStorage (snd (enhancedGetItem k w)) !! k = Some u.
Proof.
  intros Hr Hd Hacc Hu Hne Hs. apply String.eqb_neq in Hne.
  unfold_bridge. open_world w; try discriminate.
  rewrite Hacc. cbn. rewrite Hu. cbn. rewrite Hne. cbn. rewrite Hs. cbn.
  rewrite lookup_insert_eq. auto.
Qed.

(** X20: a write whose replication the platform rejected does not
    survive the next read: with the remote backend ready and holding
    an older non-empty value, [set] stores the new value locally only,
    and the following [get] returns the older remote value and writes
    it over the new one in the local backend. *)
Theorem rejected_write_is_overwritten (w : World) (k v u : string) :
  ready w = true -> vkBridge_defined (env w) = true ->
  vk_storage w !! k = Some u -> u <> "" ->
  setItem_throws (env w) k v = false ->
  setItem_throws (env w) k u = false ->
  vk_rejects (env w) (vk_sent w) = true ->
  vk_rejects (env w) (S (vk_sent w)) = false ->
  let w1 := snd (enhancedSetItem k v w) in
  localStorage w1 !! k = Some v /\
  fst (enhancedGetItem k w1) = Normal (Some u) /\
  localStorage (snd (enhancedGetItem k w1)) !! k = Some u.
Proof.
  intros Hr Hd Hu Hne Hsv Hsu Hrej Hacc w1.
  destruct (set_rejected_effect w k v Hsv Hr Hd Hrej)
    as (He & Hr1 & Hl & Hvk & Hsent).
  fold w1 in He, Hr1, Hl, Hvk, Hsent.
  split; [exact Hl|].
  apply get_takes_remote; rewrite ?He, ?Hvk, ?Hsent; auto.
Qed.

Lemma rejected_write_is_overwritten_witness :
  let w := world flaky (Some true) ∅ {["progress" := "{level:1}"]} in
  vk_storage w !! "progress" = Some "{level:1}" /\
  vk_rejects (env w) (vk_sent w) = true /\
  let w1 := snd (enhancedSetItem "progress" "{level:2}" w) in
  localStorage w1 !! "progress" = Some "{level:2}" /\
  fst (enhancedGetItem "progress" w1) = Normal (Some "{level:1}") /\
  localStorage (snd (enhancedGetItem "progress" w1)) !! "progress"
  = Some "{level:1}".
Proof.
  intros w. split; [reflexivity|]. split; [reflexivity|].
  apply (rejected_write_is_overwritten w "progress" "{level:2}" "{level:1}");
    try reflexivity.
  discriminate.
Defined.

End BridgeComposition.

(** * Loading the player's progress *)

Module LoaderSpec.
Import Bridge BridgeSpec Loader.

Lemma fault_free_env (w w' : World) :
  env w' = env w -> fault_free w -> fault_free w'.
Proof. unfold fault_free. intros ->. auto. Qed.

(** Unfolding the loop by one key. *)
Lemma load_keys_cons (k : string) (keys : list string) (w : World) :
  load_keys (k :: keys) w =
  match enhancedGetItem k w with
  | (Normal _, w1) => load_keys keys w1
  | (Throw e, w1) => (Throw e, w1)
  end.
Proof. reflexivity. Qed.

(** In a world without failures the loop runs to its end, reconciles
    every key it is given and touches no other key. *)
Lemma load_keys_reconciles (keys : list string) :
  forall w : World,
    NoDup keys -> fault_free w -> ready w = true ->
    let w' := snd (load_keys keys w) in
    fst (load_keys keys w) = Normal tt /\
    env w' = env w /\ ready w' = true /\
    (forall k, k ∈ keys -> agree w' k) /\
    (forall k, k ∉ keys -> same_at k w w').
Proof.
  induction keys as [|k keys IH]; intros w Hnd Hff Hready.
  - cbn. repeat split; auto. intros k Hk. inversion Hk.
  - apply NoDup_cons in Hnd as [Hk Hnd].
    destruct (BridgeComposition.get_fault_free w k Hff Hready)
      as (Hres & Hagree & He & Hr).
    rewrite load_keys_cons.
    destruct (enhancedGetItem k w) as [r w1] eqn:Hget.
    cbn [fst snd] in Hres, Hagree, He, Hr. rewrite Hres.
    destruct (IH w1 Hnd (fault_free_env w w1 He Hff) Hr)
      as (Hres' & He' & Hr' & Hagree' & Hframe').
    split; [exact Hres'|]. split; [congruence|]. split; [exact Hr'|].
    split.
    + intros k' Hk'. apply elem_of_cons in Hk' as [->|Hk'].
      * destruct (Hframe' k Hk) as (Hl & _ & Hv).
        unfold agree in *. rewrite Hl, Hv. exact Hagree.
      * apply Hagree'. exact Hk'.
    + intros k' Hk'. apply not_elem_of_cons in Hk' as [Hne Hk'].
      destruct (Hframe' k' Hk') as (Hl & Hc & Hv).
      pose proof (BridgeComposition.get_frame w k k' ltac:(congruence))
        as (Hl0 & Hc0 & Hv0).
      rewrite Hget in Hl0, Hc0, Hv0. cbn [snd] in Hl0, Hc0, Hv0.
      unfold same_at. rewrite Hl, Hc, Hv. auto.
Qed.

(** X7: [loadPlayerProgress] never rejects, not even when a local read
    throws, and it runs once: any later call returns at once and
    changes nothing.  The same holds for the start-screen observer:
    after the first sighting of the start screen no further firing
    has any effect. *)
Theorem load_runs_once (s : State) (sightings : list bool) :
  let s1 := snd (loadPlayerProgress s) in
  fst (loadPlayerProgress s) = Normal tt /\
  loadPlayerProgress s1 = (Normal tt, s1) /\
  observe sightings (checkStartScreen true s) = checkStartScreen true s.
Proof.
  assert (Hload : forall u : State,
             fst (loadPlayerProgress u) = Normal tt /\
             progressLoadAttempted (snd (loadPlayerProgress u)) = true /\
             isStartScreenLoaded (snd (loadPlayerProgress u))
             = isStartScreenLoaded u).
  { intros u. unfold loadPlayerProgress.
    destruct (progressLoadAttempted u) eqn:Hp; [auto|].
    unfold try_catch, ret.
    destruct (load_keys gameKeys (backends u)) as [[[]|e] w']; auto. }
  destruct (Hload s) as (Hres & Hflag & _).
  split; [exact Hres|]. split.
  - unfold loadPlayerProgress at 1. cbn zeta. rewrite Hflag. reflexivity.
  - assert (Hseen : isStartScreenLoaded (checkStartScreen true s) = true).
    { unfold checkStartScreen.
      destruct (isStartScreenLoaded s) eqn:Hs; cbn [andb negb]; [exact Hs|].
      match goal with
      | |- context [loadPlayerProgress ?u] =>
          destruct (Hload u) as (_ & _ & ->)
      end.
      reflexivity. }
    revert Hseen. generalize (checkStartScreen true s). clear.
    induction sightings as [|b rest IH]; intros u Hu; [reflexivity|].
    cbn [observe foldl].
    assert (Hstep : checkStartScreen b u = u).
    { unfold checkStartScreen. rewrite Hu.
      destruct b; reflexivity. }
    rewrite Hstep. apply IH. exact Hu.
Qed.

(** X8: in a world without failures and with a ready remote backend,
    the first [loadPlayerProgress] leaves the two backends in
    agreement on every game key: each holds the platform's value
    where the platform had one, and the local value otherwise. *)
Theorem load_reconciles (s : State) (k : string) :
  fault_free (backends s) -> ready (backends s) = true ->
  progressLoadAttempted s = false ->
  k ∈ gameKeys ->
  agree (backends (snd (loadPlayerProgress s))) k.
Proof.
  intros Hff Hready Hflag Hk.
  assert (Hnd : NoDup gameKeys).
  { apply (bool_decide_unpack _). vm_compute. reflexivity. }
  destruct (load_keys_reconciles gameKeys (backends s) Hnd Hff Hready)
    as (Hres & _ & _ & Hagree & _).
  unfold loadPlayerProgress. rewrite Hflag. unfold try_catch.
  destruct (load_keys gameKeys (backends s)) as [r w'] eqn:Hload.
  cbn [fst snd] in Hres, Hagree. rewrite Hres. cbn.
  apply Hagree. exact Hk.
Qed.

Lemma load_reconciles_witness :
  let s := {| backends := scenario_A; progressLoadAttempted := false;
              isStartScreenLoaded := false |} in
  fault_free (backends s) /\ ready (backends s) = true /\
  agree (backends (snd (loadPlayerProgress s))) "progress".
Proof.
  intros s.
  assert (Hff : fault_free (backends s)) by (repeat split; intros; reflexivity).
  split; [exact Hff|]. split; [reflexivity|].
  apply (load_reconciles s "progress" Hff eq_refl eq_refl).
  unfold gameKeys. rewrite !elem_of_cons. auto 10.
Defined.

(** Scenario A through the loader: the platform's newer value reaches
    the local backend. *)
Example load_scenario_A :
  let s := {| backends := scenario_A; progressLoadAttempted := false;
              isStartScreenLoaded := false |} in
  localStorage (backends (snd (loadPlayerProgress s))) !! "progress"
  = Some "{level:3}".
Proof. vm_compute. reflexivity. Qed.

(** With the remote backend not ready, [get] of a key whose local read
    goes through is that one read. *)
Lemma get_local_only (w : World) (k : string) :
  ready w = false -> getItem_throws (env w) k = false ->
  exists r w',
    enhancedGetItem k w = (Normal r, w') /\
    env w' = env w /\ ready w' = false /\
    trace w' = trace w ++ [LocalGet k].
Proof.
  intros Hr Hg. unfold_bridge. open_world w; try discriminate; break_if.
  all: eexists _, _; repeat split; reflexivity.
Qed.

(** And when the local read throws, it is tried twice and [get]
    rejects. *)
Lemma get_local_only_throws (w : World) (k : string) :
  ready w = false -> getItem_throws (env w) k = true ->
  exists e w',
    enhancedGetItem k w = (Throw e, w') /\
    trace w' = trace w ++ [LocalGet k; LocalGet k].
Proof.
  intros Hr Hg. unfold_bridge. open_world w; try discriminate; break_if.
  all: eexists _, _; split; [reflexivity|]; cbn; rewrite <- ?app_assoc;
    reflexivity.
Qed.

Lemma load_keys_stops (pre : list string) :
  forall (k : string) (post : list string) (w : World),
    ready w = false ->
    (forall k', k' ∈ pre -> getItem_throws (env w) k' = false) ->
    getItem_throws (env w) k = true ->
    exists e w',
      load_keys (pre ++ k :: post) w = (Throw e, w') /\
      trace w' = trace w ++ map LocalGet pre ++ [LocalGet k; LocalGet k].
Proof.
  induction pre as [|k0 pre IH]; intros k post w Hr Hpre Hk.
  - cbn [app map]. rewrite load_keys_cons.
    destruct (get_local_only_throws w k Hr Hk) as (e & w' & -> & Htr).
    eauto.
  - cbn [app map]. rewrite load_keys_cons.
    destruct (get_local_only w k0 Hr) as (r & w1 & -> & He & Hr1 & Htr).
    { apply Hpre. left. }
    destruct (IH k post w1 Hr1) as (e & w' & -> & Htr').
    { intros k' Hk'. rewrite He. apply Hpre. right. exact Hk'. }
    { rewrite He. exact Hk. }
    exists e, w'. split; [reflexivity|].
    rewrite Htr', Htr, <- app_assoc. reflexivity.
Qed.

(** X9: when the local read of one game key throws (remote backend
    not ready), [loadPlayerProgress] still resolves, but the keys
    after that one are never read; the keys before it are read once
    each and the failing key twice. *)
Theorem load_stops_at_failing_read (s : State) (pre post : list string)
    (k : string) :
  gameKeys = pre ++ k :: post ->
  progressLoadAttempted s = false ->
  ready (backends s) = false ->
  (forall k', k' ∈ pre -> getItem_throws (env (backends s)) k' = false) ->
  getItem_throws (env (backends s)) k = true ->
  let s1 := snd (loadPlayerProgress s) in
  fst (loadPlayerProgress s) = Normal tt /\
  progressLoadAttempted s1 = true /\
  trace (backends s1) =
    trace (backends s) ++ map LocalGet pre ++ [LocalGet k; LocalGet k].
Proof.
  intros Hkeys Hflag Hr Hpre Hk.
  destruct (load_keys_stops pre k post (backends s) Hr Hpre Hk)
    as (e & w' & Hload & Htr).
  unfold loadPlayerProgress. rewrite Hflag, Hkeys. unfold try_catch.
  rewrite Hload. cbn. auto.
Qed.

Lemma load_stops_at_failing_read_witness :
  let s := {| backends := world locked (Some false) ∅ ∅;
              progressLoadAttempted := false;
              isStartScreenLoaded := false |} in
  gameKeys = [] ++ "gameState" :: tl gameKeys /\
  fst (loadPlayerProgress s) = Normal tt /\
  trace (Loader.backends (snd (loadPlayerProgress s)))
  = [LocalGet "gameState"; LocalGet "gameState"].
Proof.
  intros s. split; [reflexivity|].
  destruct (load_stops_at_failing_read s [] (tl gameKeys) "gameState")
    as (Hres & _ & Htr); try reflexivity.
  - intros k' Hk'. inversion Hk'.
  - split; [exact Hres | exact Htr].
Defined.

End LoaderSpec.

(** * The unload interceptor *)

Module EventsSpec.
Import Events.

Lemma step_calls (s : State) (op : Op) :
  exists new,
    calls (step s op) = calls s ++ new /\
    Forall (fun c => registers_unload c = false) new.
Proof.
  destruct op as [t ty l o|t ty l o|w h]; cbn.
  - unfold addEventListener. destruct (is_unload ty) eqn:Hty; cbn.
    + destruct t as [t|]; cbn.
      * eexists. split; [reflexivity|]. repeat constructor.
      * exists []. rewrite app_nil_r. split; [reflexivity|]. constructor.
    + eexists. split; [reflexivity|]. repeat constructor. exact Hty.
  - unfold removeEventListener.
    destruct (is_unload ty); [destruct t as [t|];
      [destruct (listenerMap s !! t) as [m|]; [destruct (m !! l)|]|]|]; cbn.
    all: eexists; split; [reflexivity|]; repeat constructor.
  - unfold set_onunload. destruct (accessorInstalled s); [destruct h|]; cbn.
    + eexists. split; [reflexivity|]. repeat constructor.
    + exists []. rewrite app_nil_r. split; [reflexivity|]. constructor.
    + exists []. rewrite app_nil_r. split; [reflexivity|]. constructor.
Qed.

(** X10: whatever page code does through the interceptor, the
    browser's own [addEventListener] is never called for [unload] or
    [beforeunload]. *)
Theorem never_registers_unload (ops : list Op) (s : State) :
  exists new,
    calls (run ops s) = calls s ++ new /\
    Forall (fun c => registers_unload c = false) new.
Proof.
  revert s. induction ops as [|op ops IH]; intros s.
  - exists []. cbn. rewrite app_nil_r. split; [reflexivity|]. constructor.
  - cbn [run foldl]. destruct (step_calls s op) as (new1 & H1 & F1).
    destruct (IH (step s op)) as (new2 & H2 & F2).
    exists (new1 ++ new2). unfold run in H2. rewrite H2, H1, <- app_assoc.
    split; [reflexivity|]. apply Forall_app. auto.
Qed.

(** X11: called on an event target, registering a listener for
    [unload] or [beforeunload] and then removing it, under either of
    the two names, gives the browser a [pagehide] registration followed
    by the matching [pagehide] removal, and leaves no entry for the
    listener; the entries of the target's other listeners are as
    before.  Called without a receiver, the registration throws a
    TypeError before the browser is called and changes nothing, and
    the removal is handed to the browser as it is. *)
Theorem unload_add_remove (s : State) (t l l' : nat) (ty ty' : string)
    (o o' : JsVal) :
  is_unload ty = true -> is_unload ty' = true ->
  let s1 := snd (addEventListener (Some t) ty l o s) in
  let s2 := removeEventListener (Some t) ty' l o' s1 in
  fst (addEventListener (Some t) ty l o s) = Normal tt /\
  calls s1 = calls s ++ [OriginalAdd (Some t) "pagehide" l o] /\
  entry s1 t l = Some {| originalType := ty; options := o |} /\
  calls s2 = calls s ++ [OriginalAdd (Some t) "pagehide" l o;
                         OriginalRemove (Some t) "pagehide" l o'] /\
  entry s2 t l = None /\
  (l' <> l -> entry s2 t l' = entry s t l') /\
  addEventListener None ty l o s = (Throw "TypeError", s) /\
  removeEventListener None ty' l o' s
  = call (OriginalRemove None ty' l o') s.
Proof.
  intros Hty Hty'. unfold removeEventListener, addEventListener, entry.
  rewrite Hty, Hty'. cbn.
  rewrite !lookup_insert_eq. cbn. rewrite !lookup_insert_eq. cbn.
  rewrite <- app_assoc.
  split; [reflexivity|]. split; [reflexivity|]. split; [reflexivity|].
  split; [reflexivity|].
  rewrite !lookup_delete_eq. split; [reflexivity|].
  split; [|split; reflexivity].
  intros Hne. rewrite lookup_delete_ne, lookup_insert_ne by congruence.
  destruct (listenerMap s !! t); reflexivity.
Qed.

Lemma unload_add_remove_witness :
  is_unload "unload" = true /\ is_unload "beforeunload" = true /\
  let s := loaded true in
  calls (removeEventListener (Some 0) "beforeunload" 7 VUndef
           (snd (addEventListener (Some 0) "unload" 7 (VBool true) s)))
  = [OriginalAdd (Some 0) "pagehide" 7 (VBool true);
     OriginalRemove (Some 0) "pagehide" 7 VUndef] /\
  addEventListener None "unload" 7 (VBool true) s = (Throw "TypeError", s).
Proof.
  split; [reflexivity|]. split; [reflexivity|]. intros s.
  destruct (unload_add_remove s 0 7 7 "unload" "beforeunload"
              (VBool true) VUndef eq_refl eq_refl)
    as (_ & _ & _ & Hcalls & _ & _ & Hbare & _).
  split; [exact Hcalls | exact Hbare].
Defined.

(** X12: registrations and removals for every other event type pass
    through untouched: the browser receives exactly the calls the page
    made, in order, and [listenerMap] does not change. *)
Theorem other_events_pass_through (ops : list Op) (s : State) :
  forallb is_plain ops = true ->
  calls (run ops s) = calls s ++ concat (map passed_on ops) /\
  listenerMap (run ops s) = listenerMap s.
Proof.
  revert s. induction ops as [|op ops IH]; intros s Hplain.
  - cbn. rewrite app_nil_r. auto.
  - cbn in Hplain. apply andb_true_iff in Hplain as [Hop Hops].
    cbn [run foldl map concat].
    destruct (IH (step s op) Hops) as [Hc Hm]. unfold run in Hc, Hm.
    rewrite Hc, Hm.
    destruct op as [t ty l o|t ty l o|w h]; cbn in Hop; try discriminate.
    all: apply negb_true_iff in Hop; cbn.
    all: unfold addEventListener, removeEventListener; rewrite Hop; cbn.
    all: rewrite <- app_assoc; auto.
Qed.

Lemma other_events_pass_through_witness :
  let s := loaded true in
  let ops := [Add (Some 0) "click" 7 VUndef; Remove (Some 0) "click" 7 VUndef;
              Add None "click" 8 VUndef] in
  forallb is_plain ops = true /\
  calls (run ops s)
  = [OriginalAdd (Some 0) "click" 7 VUndef;
     OriginalRemove (Some 0) "click" 7 VUndef;
     OriginalAdd None "click" 8 VUndef].
Proof.
  intros s ops. split; [reflexivity|].
  apply (other_events_pass_through ops s). reflexivity.
Defined.

(** X13: where the script installed its accessor, assigning
    [window.onunload] never unregisters anything: every handler ever
    assigned is registered for [pagehide] and stays registered, also
    after a later assignment of another handler or of null.  Where the
    script found no accessor to replace, assignments pass it by:
    nothing is registered for [pagehide].  Either way the getter
    answers with the last assignment only and [listenerMap] stays as
    it is. *)
Theorem onunload_handlers_accumulate (window : nat)
    (handlers : list (option nat)) (s : State) :
  let s' := assign_onunload window handlers s in
  (accessorInstalled s = true ->
   calls s' =
     calls s ++ map (fun h => OriginalAdd (Some window) "pagehide" h VUndef)
                  (omap id handlers)) /\
  (accessorInstalled s = false -> calls s' = calls s) /\
  get_onunload s' = default (get_onunload s) (last handlers) /\
  listenerMap s' = listenerMap s /\
  accessorInstalled s' = accessorInstalled s.
Proof.
  revert s. induction handlers as [|h hs IH]; intros s.
  - cbn. rewrite app_nil_r. auto.
  - unfold assign_onunload in *. cbn [foldl].
    destruct (IH (set_onunload window h s)) as (Hc & Hn & Hg & Hm & Ha).
    assert (Hstep : accessorInstalled (set_onunload window h s)
                    = accessorInstalled s /\
                    listenerMap (set_onunload window h s) = listenerMap s /\
                    get_onunload (set_onunload window h s) = h).
    { unfold set_onunload, get_onunload.
      destruct (accessorInstalled s) eqn:Hi; [destruct h|]; cbn;
        rewrite ?Hi; auto. }
    destruct Hstep as (Hsa & Hsm & Hsg).
    rewrite Hg, Hm, Ha, Hsa, Hsm, Hsg.
    assert (Hlast : default h (last hs)
                    = default (get_onunload s) (last (h :: hs))).
    { destruct hs as [|h' hs']; [reflexivity|].
      rewrite last_cons_cons.
      destruct (last (h' :: hs')) eqn:Hl; [reflexivity|].
      apply last_None in Hl. discriminate. }
    rewrite Hlast.
    split; [|split; [|auto]].
    + intros Hi. rewrite Hc by congruence.
      unfold set_onunload. rewrite Hi.
      destruct h as [h|]; cbn; rewrite <- ?app_assoc; reflexivity.
    + intros Hi. rewrite Hn by congruence.
      unfold set_onunload. rewrite Hi. reflexivity.
Qed.

Lemma onunload_handlers_accumulate_witness :
  calls (assign_onunload 0 [Some 7; None; Some 8] (loaded true))
  = [OriginalAdd (Some 0) "pagehide" 7 VUndef;
     OriginalAdd (Some 0) "pagehide" 8 VUndef] /\
  calls (assign_onunload 0 [Some 7; None; Some 8] (loaded false)) = [] /\
  get_onunload (assign_onunload 0 [Some 7; None; Some 8] (loaded false))
  = Some 8.
Proof.
  destruct (onunload_handlers_accumulate 0 [Some 7; None; Some 8]
              (loaded true)) as (Hc & _).
  destruct (onunload_handlers_accumulate 0 [Some 7; None; Some 8]
              (loaded false)) as (_ & Hn & Hg & _).
  split; [exact (Hc eq_refl)|]. split; [exact (Hn eq_refl) | exact Hg].
Defined.

End EventsSpec.

(** * The next level among distinct groups *)

Module GroupsSpec.
Import NextLevel Groups.
Local Open Scope outcome_scope.

Section Facts.

Variable co : Coercions.
Variable h : Heap.

Lemma filter_of_values (l : list JsVal) :
  Forall (fun x => is_value x = true) l ->
  filter_not_custom h l = Normal (List.filter (keep h) l).
Proof.
  induction 1 as [|g l Hg _ IH]; [reflexivity|].
  cbn [filter_not_custom List.filter]. unfold keep at 1, is_custom.
  destruct (get_prop h g "isCustom") as [c|e] eqn:Hc.
  - cbn. rewrite IH. reflexivity.
  - destruct g; cbn in Hg, Hc; try discriminate.
    destruct (h l0); discriminate.
Qed.

Lemma find_index_absent (l : list JsVal) (x : JsVal) :
  x ∉ l -> find_index l x = None.
Proof.
  induction l as [|y l IH]; intros Hx; [reflexivity|].
  apply not_elem_of_cons in Hx as [Hne Hx]. cbn. unfold strict_eq.
  rewrite bool_decide_eq_false_2 by congruence. rewrite (IH Hx). reflexivity.
Qed.

Lemma find_index_distinct (l : list JsVal) :
  forall (i : nat) (x : JsVal),
    NoDup l -> l !! i = Some x -> find_index l x = Some i.
Proof.
  induction l as [|y l IH]; intros i x Hnd Hi; [discriminate|].
  apply NoDup_cons in Hnd as [Hy Hnd]. cbn. unfold strict_eq.
  destruct i as [|i]; cbn in Hi.
  - injection Hi as ->. rewrite bool_decide_eq_true_2 by reflexivity.
    reflexivity.
  - rewrite bool_decide_eq_false_2.
    + rewrite (IH i x Hnd Hi). reflexivity.
    + intros ->. apply Hy. apply list_elem_of_lookup. eauto.
Qed.

Lemma filter_elem (l : list JsVal) (x : JsVal) :
  x ∈ List.filter (keep h) l <-> x ∈ l /\ keep h x = true.
Proof. rewrite !list_elem_of_In. apply List.filter_In. Qed.

Lemma filter_all_custom (l : list JsVal) :
  (forall j x, l !! j = Some x -> is_custom h x = true) ->
  List.filter (keep h) l = [].
Proof.
  induction l as [|y l IH]; intros Hall; [reflexivity|]. cbn.
  unfold keep at 1. rewrite (Hall 0 y eq_refl). cbn.
  apply IH. intros j x Hj. apply (Hall (S j)). exact Hj.
Qed.

(** The groups that are kept, seen from position [c]. *)
Lemma kept_around (groups : list JsVal) (c : nat) (g : JsVal) :
  groups !! c = Some g -> is_custom h g = false ->
  List.filter (keep h) groups =
  List.filter (keep h) (take c groups) ++ g :: List.filter (keep h) (drop (S c) groups).
Proof.
  intros Hc Hg. rewrite <- (take_drop_middle groups c g Hc) at 1.
  rewrite List.filter_app. cbn. unfold keep at 2. rewrite Hg. reflexivity.
Qed.

End Facts.

(** What the function sees when the current group sits at position
    [c] of an array of distinct, non-null groups and is not custom. *)
Section Distinct.

Variable co : Coercions.
Variable h : Heap.
Variables currentLevel levelGroups : JsVal.
Variable c : nat.
Variables group levels count : JsVal.

Let groups := elements h levelGroups.

Hypothesis Harray : isArray h levelGroups = true.
Hypothesis Hdistinct : NoDup groups.
Hypothesis Hvalues : Forall (fun x => is_value x = true) groups.
Hypothesis Hgroup : groups !! c = Some group.
Hypothesis Hplain : is_custom h group = false.
Hypothesis Hlevels : get_prop h group "levels" = Normal levels.
Hypothesis Hcount : get_prop h levels "length" = Normal count.

Let before := List.filter (keep h) (take c groups).
Let after := List.filter (keep h) (drop (S c) groups).

Lemma kept_split : List.filter (keep h) groups = before ++ group :: after.
Proof. apply kept_around; assumption. Qed.

Lemma group_not_before : group ∉ before.
Proof.
  intros Hin. apply filter_elem in Hin as [Hin _].
  apply list_elem_of_lookup in Hin as [i Hi].
  pose proof (lookup_lt_Some _ _ _ Hi) as Hlt. rewrite length_take in Hlt.
  rewrite lookup_take_lt in Hi by lia.
  pose proof (NoDup_lookup groups i c group Hdistinct Hi Hgroup). lia.
Qed.

Lemma current_in_kept :
  find_index (List.filter (keep h) groups) group = Some (length before).
Proof.
  apply find_index_distinct.
  - apply NoDup_ListNoDup, List.NoDup_filter, NoDup_ListNoDup, Hdistinct.
  - rewrite kept_split, lookup_app_r by lia.
    rewrite Nat.sub_diag. reflexivity.
Qed.

Lemma indexOf_current_in_kept :
  indexOf (List.filter (keep h) groups) group = Z.of_nat (length before).
Proof. unfold indexOf. rewrite current_in_kept. reflexivity. Qed.

Lemma indexOf_current : indexOf groups group = Z.of_nat c.
Proof.
  unfold indexOf.
  rewrite (find_index_distinct groups c group Hdistinct Hgroup). reflexivity.
Qed.

Lemma get_index_at (l : list JsVal) (i : nat) (x : JsVal) :
  l !! i = Some x -> get_index co l (VNum (Z.of_nat i)) = x.
Proof.
  intros Hi. unfold get_index.
  destruct (0 <=? Z.of_nat i)%Z eqn:Hle; [|apply Z.leb_gt in Hle; lia].
  rewrite Nat2Z.id, Hi. reflexivity.
Qed.

(** The run of the function up to the comparison of levels. *)
Lemma run_to_comparison :
  calculateNextLevel co h currentLevel (VNum (Z.of_nat c)) levelGroups =
  if less_than co (add_one co currentLevel) count then
    Normal (Some (add_one co currentLevel, Z.of_nat c))
  else
    match after with
    | next :: _ => Normal (Some (VNum 0, indexOf groups next))
    | [] => Normal None
    end.
Proof.
  unfold calculateNextLevel, calculateNextLevel_try.
  assert (Htruthy : truthy levelGroups = true).
  { destruct levelGroups; cbn in Harray; try discriminate. reflexivity. }
  rewrite Htruthy, Harray. cbn [negb orb]. cbv zeta. fold groups.
  rewrite (filter_of_values h groups Hvalues). cbn [and_then].
  rewrite (get_index_at groups c group Hgroup).
  rewrite indexOf_current_in_kept.
  assert (Hlen : length (List.filter (keep h) groups)
                 = length before + S (length after)).
  { rewrite kept_split, length_app. reflexivity. }
  rewrite Hlen.
  replace (length before + S (length after) =? 0)%nat with false
    by (symmetry; apply Nat.eqb_neq; lia).
  replace (Z.of_nat (length before) =? -1)%Z with false
    by (symmetry; apply Z.eqb_neq; lia).
  rewrite (get_index_at _ (length before) group)
    by (rewrite kept_split, lookup_app_r by lia;
        rewrite Nat.sub_diag; reflexivity).
  rewrite Hlevels. cbn [and_then]. rewrite Hcount. cbn [and_then].
  rewrite indexOf_current.
  destruct (less_than co (add_one co currentLevel) count); [reflexivity|].
  destruct after as [|next rest] eqn:Hafter.
  - cbn [length].
    replace (Z.of_nat (length before) + 1
             <? Z.of_nat (length before + 1))%Z with false
      by (symmetry; apply Z.ltb_ge; lia).
    reflexivity.
  - cbn [length].
    replace (Z.of_nat (length before) + 1
             <? Z.of_nat (length before + S (S (length rest))))%Z with true
      by (symmetry; apply Z.ltb_lt; lia).
    replace (Z.of_nat (length before) + 1)%Z
      with (Z.of_nat (length before + 1)) by lia.
    rewrite (get_index_at _ (length before + 1) next).
    + reflexivity.
    + rewrite kept_split, lookup_app_r by lia.
      replace (length before + 1 - length before) with 1 by lia.
      change ((group :: after) !! 1) with (after !! 0).
      rewrite Hafter. reflexivity.
Qed.

Lemma after_first (c' : nat) (next : JsVal) :
  c < c' -> groups !! c' = Some next -> is_custom h next = false ->
  (forall j x, c < j < c' -> groups !! j = Some x -> is_custom h x = true) ->
  exists rest, after = next :: rest.
Proof.
  intros Hlt Hnext Hplain' Hbetween.
  set (post := drop (S c) groups).
  assert (Hpost : post !! (c' - S c) = Some next).
  { unfold post. rewrite lookup_drop.
    replace (S c + (c' - S c)) with c' by lia. exact Hnext. }
  unfold after. fold post.
  rewrite (kept_around h post (c' - S c) next Hpost Hplain').
  rewrite (filter_all_custom h (take (c' - S c) post)).
  - eauto.
  - intros j x Hj.
    pose proof (lookup_lt_Some _ _ _ Hj) as Hjlt. rewrite length_take in Hjlt.
    rewrite lookup_take_lt in Hj by lia.
    unfold post in Hj. rewrite lookup_drop in Hj.
    apply (Hbetween (S c + j)); [lia | exact Hj].
Qed.

Lemma after_none :
  (forall j x, c < j -> groups !! j = Some x -> is_custom h x = true) ->
  after = [].
Proof.
  intros Hall. apply filter_all_custom. intros j x Hj.
  rewrite lookup_drop in Hj. apply (Hall (S c + j)); [lia | exact Hj].
Qed.

End Distinct.

(** X14: in an array of distinct, non-null groups, with the current
    group at position [c] not custom: if [currentLevel + 1 <
    levels.length] holds for it, the answer is the next level of the
    same group, at the same position [c].  The next level is
    [currentLevel + 1] as JavaScript computes it: for a number [n]
    the double nearest to [n + 1], which is [n + 1] itself below 2^53
    in magnitude. *)
Theorem next_level_stays_in_group (co : Coercions) (h : Heap)
    (currentLevel levelGroups : JsVal) (c : nat)
    (group levels count : JsVal) :
  isArray h levelGroups = true ->
  NoDup (elements h levelGroups) ->
  Forall (fun x => is_value x = true) (elements h levelGroups) ->
  elements h levelGroups !! c = Some group ->
  is_custom h group = false ->
  get_prop h group "levels" = Normal levels ->
  get_prop h levels "length" = Normal count ->
  less_than co (add_one co currentLevel) count = true ->
  calculateNextLevel co h currentLevel (VNum (Z.of_nat c)) levelGroups
  = Normal (Some (add_one co currentLevel, Z.of_nat c)) /\
  forall n : Z,
    currentLevel = VNum n ->
    add_one co currentLevel = VNum (to_double (n + 1)) /\
    ((Z.abs (n + 1) < 2 ^ 53)%Z -> add_one co currentLevel = VNum (n + 1)).
Proof.
  intros Ha Hd Hv Hg Hp Hl Hc Hless. split.
  - rewrite (run_to_comparison co h currentLevel levelGroups c group levels
               count Ha Hd Hv Hg Hp Hl Hc).
    rewrite Hless. reflexivity.
  - intros n ->. cbn [add_one]. split; [reflexivity|].
    intros Hsafe. rewrite NextLevelSpec.to_double_exact by exact Hsafe.
    reflexivity.
Qed.

(** X15: in the same setting, when the current group has no further
    level: the answer is level 0 of the nearest later group that is
    not custom, every group in between being custom; and it is [null]
    when every later group is custom. *)
Theorem next_level_skips_custom_groups (co : Coercions) (h : Heap)
    (currentLevel levelGroups : JsVal) (c : nat)
    (group levels count : JsVal) :
  isArray h levelGroups = true ->
  NoDup (elements h levelGroups) ->
  Forall (fun x => is_value x = true) (elements h levelGroups) ->
  elements h levelGroups !! c = Some group ->
  is_custom h group = false ->
  get_prop h group "levels" = Normal levels ->
  get_prop h levels "length" = Normal count ->
  less_than co (add_one co currentLevel) count = false ->
  let groups := elements h levelGroups in
  let answer :=
    calculateNextLevel co h currentLevel (VNum (Z.of_nat c)) levelGroups in
  (forall (c' : nat) (next : JsVal),
     c < c' -> groups !! c' = Some next -> is_custom h next = false ->
     (forall j x, c < j < c' -> groups !! j = Some x ->
                  is_custom h x = true) ->
     answer = Normal (Some (VNum 0, Z.of_nat c'))) /\
  ((forall j x, c < j -> groups !! j = Some x -> is_custom h x = true) ->
   answer = Normal None).
Proof.
  intros Ha Hd Hv Hg Hp Hl Hc Hless groups answer. subst answer.
  rewrite (run_to_comparison co h currentLevel levelGroups c group levels
             count Ha Hd Hv Hg Hp Hl Hc).
  rewrite Hless. split.
  - intros c' next Hlt Hnext Hplain Hbetween.
    destruct (after_first h levelGroups c c' next Hlt Hnext Hplain Hbetween)
      as [rest ->].
    unfold indexOf.
    rewrite (find_index_distinct (elements h levelGroups) c' next Hd Hnext).
    reflexivity.
  - intros Hall. rewrite (after_none h levelGroups c Hall). reflexivity.
Qed.

(** X16: when the current group is custom, or [currentLevelGroup] is a
    number that is no position of the array, the answer is [null]. *)
Theorem no_next_level_from_custom_group (co : Coercions) (h : Heap)
    (currentLevel levelGroups : JsVal) (z : Z) :
  (z < 0)%Z \/
  elements h levelGroups !! Z.to_nat z = None \/
  (exists group, elements h levelGroups !! Z.to_nat z = Some group /\
                 is_custom h group = true) ->
  calculateNextLevel co h currentLevel (VNum z) levelGroups = Normal None.
Proof.
  intros Hcase. unfold calculateNextLevel, calculateNextLevel_try.
  destruct (negb (truthy levelGroups) || negb (isArray h levelGroups));
    [reflexivity|].
  set (groups := elements h levelGroups) in *.
  destruct (filter_not_custom h groups) as [kept|] eqn:Hkept;
    cbn [and_then]; [|reflexivity].
  destruct (length kept =? 0)%nat; [reflexivity|].
  assert (Hkept_elem : forall g, g ∈ kept ->
            g ∈ groups /\ is_custom h g = false /\ is_value g = true).
  { clear Hcase. revert kept Hkept.
    induction groups as [|g0 gs IH]; intros kept Hkept g Hg; cbn in Hkept.
    - injection Hkept as <-. inversion Hg.
    - destruct (get_prop h g0 "isCustom") as [c0|] eqn:Hc0; [|discriminate].
      cbn in Hkept.
      destruct (filter_not_custom h gs) as [rest|]; [|discriminate].
      cbn in Hkept. injection Hkept as <-.
      assert (Hrest : forall g, g ∈ rest ->
                g ∈ g0 :: gs /\ is_custom h g = false /\ is_value g = true).
      { intros g' Hg'. destruct (IH rest eq_refl g' Hg') as (? & ? & ?).
        split; [right; assumption | auto]. }
      destruct (truthy c0) eqn:Ht; cbn in Hg; [auto|].
      apply elem_of_cons in Hg as [->|Hg]; [|auto].
      split; [left|]. unfold is_custom. rewrite Hc0. split; [exact Ht|].
      destruct g0; cbn in Hc0; try discriminate; reflexivity. }
  assert (Habsent : get_index co groups (VNum z) ∉ kept).
  { intros Hin. destruct (Hkept_elem _ Hin) as (_ & Hplain & Hval).
    unfold get_index in Hplain, Hval.
    destruct (0 <=? z)%Z eqn:Hz; [|discriminate].
    destruct Hcase as [Hneg|[Hnone|(g & Hg & Hcustom)]].
    - lia.
    - rewrite Hnone in Hval. discriminate.
    - rewrite Hg in Hplain. cbn in Hplain. congruence. }
  unfold indexOf. rewrite (find_index_absent _ _ Habsent). reflexivity.
Qed.

Lemma next_level_stays_in_group_witness :
  isArray three_groups (VRef 0) = true /\
  elements three_groups (VRef 0) !! 0 = Some (VRef 1) /\
  calculateNextLevel no_coercion three_groups (VNum 0) (VNum (Z.of_nat 0))
    (VRef 0)
  = Normal (Some (VNum 1, Z.of_nat 0)).
Proof.
  split; [reflexivity|]. split; [reflexivity|].
  assert (Hd : NoDup (elements three_groups (VRef 0)))
    by (apply (bool_decide_unpack _); vm_compute; reflexivity).
  assert (Hv : Forall (fun x => is_value x = true)
                 (elements three_groups (VRef 0)))
    by (repeat constructor).
  exact (proj1 (next_level_stays_in_group no_coercion three_groups
                  (VNum 0) (VRef 0) 0 (VRef 1) (VRef 4) (VNum 2)
                  eq_refl Hd Hv eq_refl eq_refl eq_refl eq_refl eq_refl)).
Defined.

(** At 2^53 the next level is the current one: there is no double
    between 2^53 and 2^53 + 2.  And the levels of a group may be a
    string, whose length counts UTF-16 code units. *)
Example next_level_at_the_limit_of_precision :
  add_one no_coercion (VNum (2 ^ 53)) = VNum (2 ^ 53) /\
  get_prop three_groups (VStr "é") "length" = Normal (VNum 1).
Proof. vm_compute. split; reflexivity. Qed.

Lemma next_level_skips_custom_groups_witness :
  isArray three_groups (VRef 0) = true /\
  is_custom three_groups (VRef 2) = true /\
  calculateNextLevel no_coercion three_groups (VNum 1) (VNum (Z.of_nat 0))
    (VRef 0)
  = Normal (Some (VNum 0, Z.of_nat 2)).
Proof.
  split; [reflexivity|]. split; [reflexivity|].
  assert (Hd : NoDup (elements three_groups (VRef 0)))
    by (apply (bool_decide_unpack _); vm_compute; reflexivity).
  assert (Hv : Forall (fun x => is_value x = true)
                 (elements three_groups (VRef 0)))
    by (repeat constructor).
  apply (proj1 (next_level_skips_custom_groups no_coercion three_groups
                  (VNum 1) (VRef 0) 0 (VRef 1) (VRef 4) (VNum 2)
                  eq_refl Hd Hv eq_refl eq_refl eq_refl eq_refl eq_refl)
           2 (VRef 3)); [lia | reflexivity | reflexivity |].
  intros j x Hj Hx. assert (j = 1) as -> by lia.
  cbn in Hx. injection Hx as <-. reflexivity.
Defined.

Lemma no_next_level_from_custom_group_witness :
  (exists group, elements three_groups (VRef 0) !! Z.to_nat 1 = Some group /\
                 is_custom three_groups group = true) /\
  calculateNextLevel no_coercion three_groups (VNum 0) (VNum 1) (VRef 0)
  = Normal None.
Proof.
  assert (H : exists group,
             elements three_groups (VRef 0) !! Z.to_nat 1 = Some group /\
             is_custom three_groups group = true).
  { exists (VRef 2). split; reflexivity. }
  split; [exact H|].
  apply (no_next_level_from_custom_group no_coercion three_groups
           (VNum 0) (VRef 0) 1). right. right. exact H.
Defined.

End GroupsSpec.

(** * Start-up, overlapping handshakes and platform traffic *)

Module StartupSpec.
Import Bridge BridgeSpec Loader.

Lemma wait_until_ready (hc : nat -> bool) (n : nat) (remaining : nat) :
  forall (attempts : nat) (w : World),
    wrapper w = Some false ->
    attempts <= n -> n < attempts + remaining ->
    (forall i, attempts <= i < n -> hc i = false) ->
    hc n = true ->
    exists w',
      wait_for_bridge hc remaining attempts w = (Normal tt, w') /\
      trace w' = trace w ++ repeat (Sleep 100) (S n - attempts) /\
      wrapper w' = Some true.
Proof.
  induction remaining as [|r IH]; intros attempts w Hw Hle Hlt Hquiet Hn;
    [lia|].
  cbn [wait_for_bridge]. unfold bind, this_initialized. rewrite Hw. cbn.
  unfold sleep. cbn.
  destruct (Nat.eq_dec attempts n) as [->|Hne].
  - rewrite Hn. destruct r as [|r']; cbn.
    + eexists. split; [reflexivity|]. cbn.
      replace (S n - n) with 1 by lia. auto.
    + unfold bind, this_initialized. cbn.
      eexists. split; [reflexivity|]. cbn.
      replace (S n - n) with 1 by lia. auto.
  - rewrite (Hquiet attempts) by lia.
    destruct (IH (S attempts) (record (Sleep 100) w))
      as (w' & Heq & Htr & Hw');
      [exact Hw | lia | lia | intros i Hi; apply Hquiet; lia | exact Hn |].
    exists w'. split; [exact Heq|]. split; [|exact Hw'].
    rewrite Htr. cbn. rewrite <- app_assoc. cbn.
    replace (S n - attempts) with (S (n - attempts)) by lia.
    replace (n - attempts) with (S (n - S attempts)) by lia.
    reflexivity.
Qed.

(** No operation of the bridge sleeps. *)
Lemma bridge_never_sleeps (w : World) (k v : string) :
  (exists new, trace (snd (enhancedGetItem k w)) = trace w ++ new /\
               Forall (fun e => is_sleep e = false) new) /\
  (exists new, trace (snd (enhancedSetItem k v w)) = trace w ++ new /\
               Forall (fun e => is_sleep e = false) new) /\
  (exists new, trace (snd (enhancedRemoveItem k w)) = trace w ++ new /\
               Forall (fun e => is_sleep e = false) new).
Proof.
  unfold_bridge. open_world w; break_if.
  all: repeat split.
  all: eexists; split; [rewrite <- ?app_assoc; reflexivity | repeat constructor].
Qed.

(** What a [get] leaves as it was: the start-up flag, a ready wrapper,
    and, while the remote backend is not ready, everything but the
    trace. *)
Lemma get_keeps (w : World) (k : string) :
  let w' := snd (enhancedGetItem k w) in
  isInitialized w' = isInitialized w /\
  (ready w = true -> ready w' = true) /\
  (ready w = false ->
   ready w' = false /\ env w' = env w /\ localStorage w' = localStorage w).
Proof.
  unfold_bridge. open_world w; break_if.
  all: repeat split; intros; try discriminate; reflexivity.
Qed.

Lemma load_keys_keeps (keys : list string) :
  forall w : World,
    let w' := snd (load_keys keys w) in
    (exists new, trace w' = trace w ++ new /\
                 Forall (fun e => is_sleep e = false) new) /\
    isInitialized w' = isInitialized w /\
    (ready w = true -> ready w' = true) /\
    (ready w = false ->
     ready w' = false /\ env w' = env w /\ localStorage w' = localStorage w).
Proof.
  induction keys as [|k keys IH]; intros w; cbv zeta.
  - cbn. split; [|auto].
    exists []. rewrite app_nil_r. split; [reflexivity | constructor].
  - rewrite LoaderSpec.load_keys_cons.
    destruct (bridge_never_sleeps w k "") as ((new1 & Ht1 & F1) & _).
    destruct (get_keeps w k) as (Hi1 & Hr1 & Hn1).
    destruct (enhancedGetItem k w) as [[r|e] w1]; cbn [snd] in *.
    + destruct (IH w1) as ((new2 & Ht2 & F2) & Hi2 & Hr2 & Hn2).
      split.
      { exists (new1 ++ new2). rewrite Ht2, Ht1, app_assoc.
        split; [reflexivity | apply Forall_app; auto]. }
      split; [congruence|]. split; [auto|].
      intros Hr. destruct (Hn1 Hr) as (Ha & Hb & Hc).
      destruct (Hn2 Ha) as (Ha' & Hb' & Hc').
      repeat split; congruence.
    + split; [eauto|]. auto.
Qed.

(** The rest of [initialize] after the poll: the loading it may start
    adds backend operations only. *)
Lemma checkStartScreen_keeps (startScreen : bool) (s : State) :
  let w := backends s in
  let w' := backends (checkStartScreen startScreen s) in
  (exists new, trace w' = trace w ++ new /\
               Forall (fun e => is_sleep e = false) new /\
               (startScreen = false -> new = [])) /\
  isInitialized w' = isInitialized w /\
  (ready w = true -> ready w' = true) /\
  (ready w = false ->
   ready w' = false /\ env w' = env w /\ localStorage w' = localStorage w).
Proof.
  cbv zeta.
  assert (Hsame : (exists new, trace (backends s) = trace (backends s) ++ new /\
                     Forall (fun e => is_sleep e = false) new /\
                     (startScreen = false -> new = [])) /\
                  isInitialized (backends s) = isInitialized (backends s) /\
                  (ready (backends s) = true -> ready (backends s) = true) /\
                  (ready (backends s) = false ->
                   ready (backends s) = false /\
                   env (backends s) = env (backends s) /\
                   localStorage (backends s) = localStorage (backends s))).
  { split; [|auto]. exists []. rewrite app_nil_r. auto. }
  unfold checkStartScreen, loadPlayerProgress.
  destruct startScreen; cbn [andb]; [|exact Hsame].
  destruct (isStartScreenLoaded s); cbn [negb]; [exact Hsame|].
  cbn [progressLoadAttempted backends isStartScreenLoaded].
  destruct (progressLoadAttempted s); cbn [snd backends]; [exact Hsame|].
  unfold try_catch, ret.
  destruct (load_keys_keeps gameKeys (backends s))
    as ((new & Ht & F) & Hi & Hr & Hn).
  destruct (load_keys gameKeys (backends s)) as [[r|e] w']; cbn [snd backends] in *.
  all: split; [exists new; repeat split; auto; discriminate|]; auto.
Qed.

(** What [initialize] does to the world. *)
Lemma initialize_effect (hc : nat -> bool) (startScreen : bool) (s : State) :
  let w := backends s in
  let w1 := backends (snd (initialize hc startScreen s)) in
  fst (initialize hc startScreen s) = Normal tt /\
  (exists n new,
     n <= 50 /\
     trace w1 = trace w ++ repeat (Sleep 100) n ++ new /\
     Forall (fun e => is_sleep e = false) new /\
     (startScreen = false -> new = [])) /\
  isInitialized w1 = true /\
  ((forall i, hc i = false) -> ready w = false ->
   ready w1 = false /\ env w1 = env w /\ localStorage w1 = localStorage w).
Proof.
  cbv zeta. unfold initialize.
  destruct (isInitialized (backends s)) eqn:Hi.
  - cbn [fst snd]. split; [reflexivity|]. split; [|auto].
    exists 0, []. cbn. rewrite app_nil_r. auto with lia.
  - assert (Hpoll : exists n w',
               startup_poll hc (with_isInitialized true (backends s))
               = (Normal tt, w') /\
               n <= 50 /\
               trace w' = trace (backends s) ++ repeat (Sleep 100) n /\
               isInitialized w' = true /\
               ((forall i, hc i = false) -> ready (backends s) = false ->
                ready w' = false /\ env w' = env (backends s) /\
                localStorage w' = localStorage (backends s))).
    { unfold startup_poll.
      change (wrapper (with_isInitialized true (backends s)))
        with (wrapper (backends s)).
      destruct (wrapper (backends s)) as [b|] eqn:Hw.
      - destruct (wait_for_bridge_sleeps hc maxAttempts 0
                    (with_isInitialized true (backends s)))
          as (n & w' & Heq & Hn & Htr & _ & He & Hl & Hi' & Hnever).
        { cbn. rewrite Hw. discriminate. }
        exists n, w'. repeat split; auto.
        apply Hnever; auto.
      - exists 0, (with_isInitialized true (backends s)). cbn.
        rewrite app_nil_r. repeat split; auto with lia. }
    destruct Hpoll as (n & w' & -> & Hn & Htr & Hi' & Hnever).
    cbn [fst snd].
    match goal with
    | |- context [checkStartScreen startScreen ?u] =>
        destruct (checkStartScreen_keeps startScreen u)
          as ((new & Ht & F & Hnone) & Hi2 & Hr2 & Hn2)
    end.
    cbn [backends] in Ht, Hi2, Hr2, Hn2.
    split; [reflexivity|]. split; [|split].
    + exists n, new. rewrite Ht, Htr, <- app_assoc. auto.
    + congruence.
    + intros Hhc Hr. destruct (Hnever Hhc Hr) as (Ha & Hb & Hc).
      destruct (Hn2 Ha) as (Ha' & Hb' & Hc').
      repeat split; congruence.
Qed.

(** C8: [initialize] never throws and its only wait is the start-up
    poll: at most 50 sleeps of 100 ms, followed by backend operations
    only (those of the loading it starts when the start screen is
    there), and a second [initialize] does nothing.  No [get], [set]
    or [remove] ever sleeps; issued while the remote backend is not
    ready, a [set] or [remove] performs its local operation and
    nothing else (no platform call), and so does a [get], which
    returns the local value at once; also after a poll during which
    the handshake never completed (Scenario B). *)
Theorem bounded_waiting (hc : nat -> bool) (startScreen : bool) (s : State)
    (k v x : string) :
  let w := backends s in
  let s1 := snd (initialize hc startScreen s) in
  let w1 := backends s1 in
  fst (initialize hc startScreen s) = Normal tt /\
  (exists n new,
     n <= 50 /\
     trace w1 = trace w ++ repeat (Sleep 100) n ++ new /\
     Forall (fun e => is_sleep e = false) new /\
     (startScreen = false -> new = [])) /\
  (forall hc' again, initialize hc' again s1 = (Normal tt, s1)) /\
  ((exists new, trace (snd (enhancedGetItem k w)) = trace w ++ new /\
                Forall (fun e => is_sleep e = false) new) /\
   (exists new, trace (snd (enhancedSetItem k v w)) = trace w ++ new /\
                Forall (fun e => is_sleep e = false) new) /\
   (exists new, trace (snd (enhancedRemoveItem k w)) = trace w ++ new /\
                Forall (fun e => is_sleep e = false) new)) /\
  (ready w = false ->
   trace (snd (enhancedSetItem k v w)) = trace w ++ [LocalSet k v] /\
   trace (snd (enhancedRemoveItem k w)) = trace w ++ [LocalRemove k] /\
   (fst (getItem k w) = Normal (Some x) ->
    fst (enhancedGetItem k w) = Normal (Some x) /\
    trace (snd (enhancedGetItem k w)) = trace w ++ [LocalGet k] /\
    ((forall i, hc i = false) ->
     ready w1 = false /\
     fst (enhancedGetItem k w1) = Normal (Some x) /\
     trace (snd (enhancedGetItem k w1)) = trace w1 ++ [LocalGet k]))).
Proof.
  intros w s1 w1.
  destruct (initialize_effect hc startScreen s) as (Hres & Hsleeps & Hi & Hnever).
  fold w in Hsleeps, Hnever. fold s1 in Hsleeps, Hi, Hnever.
  fold w1 in Hsleeps, Hi, Hnever.
  split; [exact Hres|]. split; [exact Hsleeps|].
  split; [intros hc' again; unfold initialize; fold w1; rewrite Hi; reflexivity|].
  split; [apply bridge_never_sleeps|].
  intros Hready. split; [|split].
  - clear -Hready. unfold_bridge.
    open_world w; try discriminate; break_if; reflexivity.
  - clear -Hready. unfold_bridge.
    open_world w; try discriminate; break_if; reflexivity.
  - intros Hlocal.
    destruct (get_not_ready w k x Hready Hlocal) as [Hg1 Hg2].
    split; [exact Hg1|]. split; [exact Hg2|].
    intros Hhc. destruct (Hnever Hhc Hready) as (Hr1 & He & Hl).
    split; [exact Hr1|].
    apply get_not_ready; [exact Hr1|].
    revert Hlocal. unfold getItem. cbn. rewrite He, Hl.
    destruct (getItem_throws (env w) k); auto.
Qed.

Lemma bounded_waiting_witness :
  let s := {| backends := scenario_B; progressLoadAttempted := false;
              isStartScreenLoaded := false |} in
  let w1 := backends (snd (initialize (fun _ => false) true s)) in
  ready scenario_B = false /\
  fst (getItem "progress" scenario_B) = Normal (Some "{level:1}") /\
  (exists n new,
     n <= 50 /\
     trace w1 = trace scenario_B ++ repeat (Sleep 100) n ++ new /\
     Forall (fun e => is_sleep e = false) new /\
     (true = false -> new = [])) /\
  fst (enhancedGetItem "progress" w1) = Normal (Some "{level:1}").
Proof.
  intros s w1.
  split; [reflexivity|]. split; [reflexivity|].
  destruct (bounded_waiting (fun _ => false) true s
              "progress" "v" "{level:1}")
    as (_ & Hn & _ & _ & Hb).
  split; [exact Hn|].
  destruct (Hb eq_refl) as (_ & _ & Hget).
  destruct (Hget eq_refl) as (_ & _ & Hafter).
  apply Hafter. reflexivity.
Defined.

(** Scenario B run to the end with the start screen in the document:
    fifty sleeps, then the six local reads of the loading; after that
    [get] returns the local value. *)
Example scenario_B_run :
  let s := {| backends := scenario_B; progressLoadAttempted := false;
              isStartScreenLoaded := false |} in
  let w1 := backends (snd (initialize (fun _ => false) true s)) in
  trace w1 = repeat (Sleep 100) 50 ++ map LocalGet gameKeys /\
  fst (enhancedGetItem "progress" w1) = Normal (Some "{level:1}").
Proof. vm_compute. split; reflexivity. Qed.

(** X17: [initialize] stops polling as soon as the handshake has
    completed: if it completes during the sleep that follows [n]
    attempts, with [n < 50], [initialize] sleeps exactly [n + 1]
    times before anything else and leaves the wrapper ready; a wrapper
    that is ready at the start, or absent, costs no sleep at all.
    What follows the poll are the backend operations of the loading,
    none where the start screen is not there yet. *)
Theorem initialize_stops_when_ready (hc : nat -> bool) (startScreen : bool)
    (s : State) (n : nat) :
  isInitialized (backends s) = false ->
  let w := backends s in
  let w1 := backends (snd (initialize hc startScreen s)) in
  (wrapper w = Some false -> n < 50 -> hc n = true ->
   (forall i, i < n -> hc i = false) ->
   ready w1 = true /\
   exists new,
     trace w1 = trace w ++ repeat (Sleep 100) (S n) ++ new /\
     Forall (fun e => is_sleep e = false) new /\
     (startScreen = false -> new = [])) /\
  (wrapper w <> Some false ->
   exists new,
     trace w1 = trace w ++ new /\
     Forall (fun e => is_sleep e = false) new /\
     (startScreen = false -> new = [])).
Proof.
  intros Hi. cbv zeta. unfold initialize. rewrite Hi. unfold startup_poll.
  change (wrapper (with_isInitialized true (backends s)))
    with (wrapper (backends s)).
  split.
  - intros Hw Hn Hhc Hquiet. rewrite Hw.
    destruct (wait_until_ready hc n maxAttempts 0
                (with_isInitialized true (backends s)))
      as (w' & Heq & Htr & Hw');
      [exact Hw | lia | unfold maxAttempts; lia
      | intros i Hi'; apply Hquiet; lia | exact Hhc |].
    rewrite Heq. cbn [snd].
    match goal with
    | |- context [checkStartScreen startScreen ?u] =>
        destruct (checkStartScreen_keeps startScreen u)
          as ((new & Ht & F & Hnone) & _ & Hr2 & _)
    end.
    cbn [backends] in Ht, Hr2.
    split; [apply Hr2; unfold ready; rewrite Hw'; reflexivity|].
    exists new. rewrite Ht, Htr, Nat.sub_0_r, <- app_assoc. auto.
  - intros Hw.
    assert (Hpoll : match wrapper (backends s) with
                    | Some _ => wait_for_bridge hc maxAttempts 0
                                  (with_isInitialized true (backends s))
                    | None => (Normal tt, with_isInitialized true (backends s))
                    end = (Normal tt, with_isInitialized true (backends s))).
    { destruct (wrapper (backends s)) as [[|]|] eqn:Hwr; try congruence.
      unfold maxAttempts. cbn [wait_for_bridge].
      unfold bind, this_initialized.
      change (wrapper (with_isInitialized true (backends s)))
        with (wrapper (backends s)).
      rewrite Hwr. reflexivity. }
    rewrite Hpoll. cbn [snd].
    match goal with
    | |- context [checkStartScreen startScreen ?u] =>
        destruct (checkStartScreen_keeps startScreen u)
          as ((new & Ht & F & Hnone) & _)
    end.
    cbn [backends] in Ht. exists new. rewrite Ht. auto.
Qed.

Lemma initialize_stops_when_ready_witness :
  let s := {| backends := scenario_B; progressLoadAttempted := false;
              isStartScreenLoaded := false |} in
  let w1 := backends (snd (initialize (fun i => Nat.eqb i 2) false s)) in
  isInitialized scenario_B = false /\
  ready w1 = true /\
  exists new,
    trace w1 = trace scenario_B ++ repeat (Sleep 100) 3 ++ new /\
    Forall (fun e => is_sleep e = false) new /\
    (false = false -> new = []).
Proof.
  intros s w1. split; [reflexivity|].
  destruct (initialize_stops_when_ready (fun i => Nat.eqb i 2) false s 2
              eq_refl) as [Hpoll _].
  apply Hpoll; [reflexivity | lia | reflexivity |].
  intros i Hi. apply Nat.eqb_neq. lia.
Defined.

(** With the start screen in the document and the handshake complete
    after the third sleep, the loading goes to the platform: three
    sleeps, then for each game key a platform read and a local
    read. *)
Example initialize_then_load :
  let s := {| backends := scenario_B; progressLoadAttempted := false;
              isStartScreenLoaded := false |} in
  let w1 := backends (snd (initialize (fun i => Nat.eqb i 2) true s)) in
  length (List.filter is_sleep (trace w1)) = 3 /\
  take 5 (trace w1)
  = [Sleep 100; Sleep 100; Sleep 100;
     Send (VKWebAppStorageGet "gameState"); LocalGet "gameState"] /\
  vk_storage w1 !! "progress" = Some "{level:1}".
Proof. vm_compute. repeat split; reflexivity. Qed.

(** X18: two overlapping calls of [init] on a wrapper that is not
    initialized both call the platform; each resolves to whether its
    own call was accepted, so the two callers may see different
    results; and the wrapper ends up initialized exactly when at
    least one of the two calls was accepted. *)
Theorem overlapping_inits (w : World) :
  wrapper w = Some false ->
  vkBridge_defined (env w) = true ->
  exists a1 a2 w1 w2,
    init_begin w = (Normal (Awaiting a1), w1) /\
    init_begin w1 = (Normal (Awaiting a2), w2) /\
    handshakes w2 = 2 + handshakes w /\
    let first := negb (vk_rejects (env w) (vk_sent w)) in
    let second := negb (vk_rejects (env w) (S (vk_sent w))) in
    fst (init_resume a1 w2) = Normal first /\
    fst (init_resume a2 (snd (init_resume a1 w2))) = Normal second /\
    ready (snd (init_resume a2 (snd (init_resume a1 w2))))
    = first || second.
Proof.
  intros Hw Hd. unfold_bridge. open_world w; try discriminate.
  repeat match goal with
         | |- context [negb (?f ?x)] =>
             let E := fresh "E" in destruct (f x) eqn:E
         end.
  all: repeat (cbn;
               repeat match goal with
                      | E : ?x = _ |- context [if ?x then _ else _] =>
                          rewrite E
                      end).
  all: eexists _, _, _, _; split; [reflexivity|]; cbn.
  all: repeat match goal with
              | E : ?x = _ |- context [if ?x then _ else _] =>
                  rewrite E; cbn
              end.
  all: split; [reflexivity|]; cbn.
  all: split; [rewrite !List.filter_app, !length_app; cbn; lia|].
  all: auto.
Qed.

Lemma overlapping_inits_witness :
  wrapper (world flaky (Some false) ∅ ∅) = Some false /\
  vkBridge_defined (env (world flaky (Some false) ∅ ∅)) = true /\
  exists a1 a2 w1 w2,
    init_begin (world flaky (Some false) ∅ ∅) = (Normal (Awaiting a1), w1) /\
    init_begin w1 = (Normal (Awaiting a2), w2) /\
    fst (init_resume a1 w2) = Normal false /\
    fst (init_resume a2 (snd (init_resume a1 w2))) = Normal true.
Proof.
  split; [reflexivity|]. split; [reflexivity|].
  destruct (overlapping_inits (world flaky (Some false) ∅ ∅) eq_refl eq_refl)
    as (a1 & a2 & w1 & w2 & H1 & H2 & _ & Hr1 & Hr2 & _).
  exists a1, a2, w1, w2. auto.
Defined.

(** Platform calls made by one bridge operation. *)
Lemma bridge_calls (w : World) (k v : string) :
  vk_sent w <= vk_sent (snd (enhancedGetItem k w)) <= vk_sent w + 2 /\
  vk_sent w <= vk_sent (snd (enhancedSetItem k v w)) <= vk_sent w + 1 /\
  vk_sent w <= vk_sent (snd (enhancedRemoveItem k w)) <= vk_sent w + 1 /\
  (ready w = false ->
   vk_sent (snd (enhancedGetItem k w)) = vk_sent w /\
   vk_sent (snd (enhancedSetItem k v w)) = vk_sent w /\
   vk_sent (snd (enhancedRemoveItem k w)) = vk_sent w).
Proof.
  unfold_bridge. open_world w; break_if.
  all: repeat split; intros; try discriminate; lia.
Qed.

Lemma load_keys_calls (keys : list string) :
  forall w : World,
    vk_sent w <= vk_sent (snd (load_keys keys w))
    <= vk_sent w + 2 * length keys.
Proof.
  induction keys as [|k keys IH]; intros w; [cbn; lia|].
  rewrite LoaderSpec.load_keys_cons.
  destruct (bridge_calls w k "") as (Hget & _).
  destruct (enhancedGetItem k w) as [[r|e] w1]; cbn [snd] in *.
  - specialize (IH w1). cbn [length]. lia.
  - cbn [length]. lia.
Qed.

(** X19: the bridge is sparing with the platform: a [get] makes at
    most two platform calls, a [set] or [remove] at most one, none of
    them any while the remote backend is not ready, and loading the
    player's progress makes at most twelve. *)
Theorem platform_calls_bounded (w : World) (k v : string) (s : State) :
  vk_sent (snd (enhancedGetItem k w)) <= vk_sent w + 2 /\
  vk_sent (snd (enhancedSetItem k v w)) <= vk_sent w + 1 /\
  vk_sent (snd (enhancedRemoveItem k w)) <= vk_sent w + 1 /\
  (ready w = false ->
   vk_sent (snd (enhancedGetItem k w)) = vk_sent w /\
   vk_sent (snd (enhancedSetItem k v w)) = vk_sent w /\
   vk_sent (snd (enhancedRemoveItem k w)) = vk_sent w) /\
  vk_sent (backends (snd (loadPlayerProgress s)))
  <= vk_sent (backends s) + 12.
Proof.
  destruct (bridge_calls w k v) as (Hg & Hs & Hr & Hnot).
  repeat split; try lia; try (apply Hnot; assumption).
  unfold loadPlayerProgress.
  destruct (progressLoadAttempted s); [cbn; lia|].
  unfold try_catch, ret.
  pose proof (load_keys_calls gameKeys (backends s)) as Hload.
  destruct (load_keys gameKeys (backends s)) as [[r|e] w']; cbn in *; lia.
Qed.

End StartupSpec.
